(** * ICD dashboard: the filtering and aggregation pipeline

    A shallow embedding of [src/utils.ts] and of the pure parts of the
    [App] component (header validation, first-sheet ingestion, campus
    restriction, the filter predicate, the KPI summary and the CSV export),
    followed by the properties the specification states about them.

    Strings are [string]s of 8-bit characters.  The JavaScript string
    primitives the code calls ([trim], [toUpperCase], [toLowerCase],
    [includes], [join], [localeCompare], [Set], [sort]) are modelled in
    [Module JS] on the ASCII range: characters above 127 are neither white
    space nor letters. *)

From Stdlib Require Import String Ascii List Bool Arith ZArith Lia.
From Stdlib Require Import Sorted Permutation.
Import ListNotations.

Local Open Scope string_scope.
Local Open Scope list_scope.

(* ================================================================== *)
(** ** The JavaScript primitives used by the code *)
(* ================================================================== *)

Module JS.

(** White space as [String.prototype.trim] sees it, on the ASCII range:
    TAB, LF, VT, FF, CR and SPACE. *)
Definition isWhiteSpace (c : ascii) : bool :=
  let n := nat_of_ascii c in
  (((9 <=? n) && (n <=? 13)) || (n =? 32))%nat.

Definition toUpperChar (c : ascii) : ascii :=
  let n := nat_of_ascii c in
  if ((97 <=? n) && (n <=? 122))%nat then ascii_of_nat (n - 32) else c.

Definition toLowerChar (c : ascii) : ascii :=
  let n := nat_of_ascii c in
  if ((65 <=? n) && (n <=? 90))%nat then ascii_of_nat (n + 32) else c.

Fixpoint mapChars (f : ascii -> ascii) (s : string) : string :=
  match s with
  | EmptyString => EmptyString
  | String c s' => String (f c) (mapChars f s')
  end.

Definition toUpperCase : string -> string := mapChars toUpperChar.
Definition toLowerCase : string -> string := mapChars toLowerChar.

(** [Boolean(s)] on a string: the empty string is the only falsy one. *)
Definition truthy (s : string) : bool :=
  match s with
  | EmptyString => false
  | String _ _ => true
  end.

Fixpoint trimStart (s : string) : string :=
  match s with
  | EmptyString => EmptyString
  | String c s' => if isWhiteSpace c then trimStart s' else s
  end.

Fixpoint trimEnd (s : string) : string :=
  match s with
  | EmptyString => EmptyString
  | String c s' =>
      let t := trimEnd s' in
      if isWhiteSpace c && negb (truthy t) then EmptyString else String c t
  end.

Definition trim (s : string) : string := trimEnd (trimStart s).

(** [s.startsWith(q)] and [s.includes(q)]. *)
Fixpoint startsWith (s q : string) {struct q} : bool :=
  match q, s with
  | EmptyString, _ => true
  | String _ _, EmptyString => false
  | String a q', String b s' => Ascii.eqb a b && startsWith s' q'
  end.

Fixpoint includes (s q : string) : bool :=
  startsWith s q ||
  match s with
  | EmptyString => false
  | String _ s' => includes s' q
  end.

(** [arr.includes(v)] on an array of strings. *)
Definition arrayIncludes (arr : list string) (v : string) : bool :=
  existsb (String.eqb v) arr.

(** [arr.join(sep)]. *)
Definition join (sep : string) (arr : list string) : string :=
  String.concat sep arr.

(** [v.replaceAll(c, r)] for a one-character pattern [c]. *)
Fixpoint replaceAllChar (c : ascii) (r : string) (v : string) : string :=
  match v with
  | EmptyString => EmptyString
  | String a v' =>
      if Ascii.eqb a c then r ++ replaceAllChar c r v'
      else String a (replaceAllChar c r v')
  end%string.

(** [new Set(arr)] read back with [Array.from]: the elements in insertion
    order, each kept at its first occurrence; membership is exact string
    equality. *)
Definition setAdd (acc : list string) (x : string) : list string :=
  if arrayIncludes acc x then acc else acc ++ [x].

Definition setFromArray (arr : list string) : list string :=
  fold_left setAdd arr [].

(** [a.localeCompare(b, undefined, { sensitivity: 'base' })] belongs to
    the platform: its order depends on the locale and on the collation
    tables (punctuation, for one, comes before digits).  This is a
    stand-in to compute examples with: the order of the case-folded
    strings, in which strings that differ only in letter case compare
    equal.  What is proved about the order of a sorted result is proved
    for [uniqSortedBy], whose comparator is a parameter. *)
Definition localeCompareBase (a b : string) : comparison :=
  String.compare (toLowerCase a) (toLowerCase b).

(** [Array.prototype.sort] with a comparator.  The sort is stable: an
    element is inserted in front of the first element that does not come
    strictly before it. *)
Section Sort.
Context {A : Type} (cmp : A -> A -> comparison).

Fixpoint insertSorted (x : A) (l : list A) : list A :=
  match l with
  | [] => [x]
  | y :: l' =>
      match cmp x y with
      | Gt => y :: insertSorted x l'
      | _ => x :: l
      end
  end.

Fixpoint sort (l : list A) : list A :=
  match l with
  | [] => []
  | x :: l' => insertSorted x (sort l')
  end.

(** [x] may stand before [y]: the comparator does not put it after. *)
Definition notAfter (x y : A) : Prop := cmp x y <> Gt.
End Sort.

End JS.

Import JS.

(* ================================================================== *)
(** ** types.ts *)
(* ================================================================== *)

Record ProgramRow := mkProgramRow {
  Campus : string;
  College : string;
  Program : string;
  Major : string;
  Level : string;
  COPC_Status : string;
  COPC_No : string;
  Contents_Notation : string;
  Accreditation : string;
  CMO_PSG : string;
  BOR_Resolution : string;
  Dean : string
}.

Record FilterState := mkFilterState {
  colleges : list string;
  levels : list string;
  copcStatuses : list string;
  accreditations : list string;
  deans : list string;
  search : string;
  hideBlankMajor : bool
}.

(* ================================================================== *)
(** ** utils.ts *)
(* ================================================================== *)

Definition EXPECTED_HEADERS : list string :=
  [ "Campus"; "College"; "Program"; "Major"; "Level"; "COPC Status";
    "COPC No."; "Contents Notation"; "Accreditation"; "CMO / PSG";
    "BOR Resolution"; "Dean" ].

(** A cell value, of type [unknown] in the source.  A number carries its
    [String(value)] rendering, and so does a value of any other type. *)
Inductive CellValue :=
| VNull
| VUndefined
| VString (s : string)
| VNumber (shown : string)
| VBoolean (b : bool)
| VOther (shown : string).

Definition normalizeCell (value : CellValue) : string :=
  match value with
  | VNull | VUndefined => ""
  | VString s => trim s
  | VNumber shown => shown
  | VBoolean b => if b then "TRUE" else "FALSE"
  | VOther shown => trim shown
  end.

Definition normalizeAccreditation (raw : string) : string :=
  let v := trim raw in
  if negb (truthy v) then "Unknown" else
  let upper := toUpperCase v in
  if includes upper "LEVEL IV" then "Level IV" else
  if includes upper "LEVEL III" then "Level III" else
  if includes upper "LEVEL II" then "Level II" else
  if includes upper "LEVEL I" then "Level I" else
  if includes upper "CANDIDATE" then "Candidate" else
  v.

Definition searchFields (row : ProgramRow) : list string :=
  [ Program row; Major row; COPC_No row; CMO_PSG row; BOR_Resolution row;
    Contents_Notation row; College row; Level row; COPC_Status row;
    Accreditation row; Dean row ].

Definition haystackOf (row : ProgramRow) : string :=
  toLowerCase (join " | " (filter truthy (searchFields row))).

Definition includesSearch (row : ProgramRow) (q : string) : bool :=
  let query := toLowerCase (trim q) in
  if negb (truthy query) then true else
  includes (haystackOf row) query.

Definition uniqSorted (values : list string) : list string :=
  sort localeCompareBase (setFromArray (filter truthy (map trim values))).

(* ================================================================== *)
(** ** App.tsx: ingestion *)
(* ================================================================== *)

Record LoadedData := mkLoadedData {
  raw : list ProgramRow;
  bambang : list ProgramRow;
  removedNonBambangCount : Z
}.

Definition DEFAULT_FILTERS : FilterState :=
  {| colleges := []; levels := []; copcStatuses := []; accreditations := [];
     deans := []; search := ""; hideBlankMajor := false |}.

Definition validateHeaders (headers : list string) : option string :=
  let trimmed := map trim headers in
  let expected := EXPECTED_HEADERS in
  let missing := filter (fun h => negb (arrayIncludes trimmed h)) expected in
  if negb (length missing =? 0)%nat
  then Some ("Missing expected columns: " ++ join ", " missing)%string
  else None.

(** A row object of [sheet_to_json]: the header cells are its keys, in
    column order. *)
Definition RawRow : Type := list (string * CellValue).

Definition objectKeys (r : RawRow) : list string := map fst r.

(** [r[key]]: a key the object does not have reads as [undefined]. *)
Fixpoint getProp (r : RawRow) (key : string) : CellValue :=
  match r with
  | [] => VUndefined
  | (k, v) :: r' => if (k =? key)%string then v else getProp r' key
  end.

(** A worksheet is seen through the rows [XLSX.utils.sheet_to_json] makes
    of it (first row as headers, empty cells filled with the empty string);
    a workbook is its sheet names and its sheets by name. *)
Definition WorkSheet : Type := list RawRow.

Record WorkBook := mkWorkBook {
  SheetNames : list string;
  Sheets : list (string * WorkSheet)
}.

Fixpoint sheetByName (sheets : list (string * WorkSheet)) (name : string)
  : option WorkSheet :=
  match sheets with
  | [] => None
  | (k, ws) :: rest => if (k =? name)%string then Some ws else sheetByName rest name
  end.

Definition sheet_to_json (ws : option WorkSheet) : list RawRow :=
  match ws with
  | None => []
  | Some rowsArr => rowsArr
  end.

(** What the [FileReader] and [XLSX.read] make of the uploaded file: the
    read fails, the bytes are no workbook ([XLSX.read] throws), or a
    workbook comes out. *)
Inductive FileContents :=
| Unreadable
| Malformed (message : string)
| Parsed (wb : WorkBook).

(** The promise of [parseXlsxFirstSheet], settled. *)
Inductive ParseResult :=
| Rejected (message : string)
| Resolved (rows : list ProgramRow).

Definition toProgramRow (r : RawRow) : ProgramRow :=
  {| Campus := normalizeCell (getProp r "Campus");
     College := normalizeCell (getProp r "College");
     Program := normalizeCell (getProp r "Program");
     Major := normalizeCell (getProp r "Major");
     Level := normalizeCell (getProp r "Level");
     COPC_Status := normalizeCell (getProp r "COPC Status");
     COPC_No := normalizeCell (getProp r "COPC No.");
     Contents_Notation := normalizeCell (getProp r "Contents Notation");
     Accreditation := normalizeCell (getProp r "Accreditation");
     CMO_PSG := normalizeCell (getProp r "CMO / PSG");
     BOR_Resolution := normalizeCell (getProp r "BOR Resolution");
     Dean := normalizeCell (getProp r "Dean") |}.

Definition parseXlsxFirstSheet (file : FileContents) : ParseResult :=
  match file with
  | Unreadable => Rejected "Failed to read the file."
  | Malformed message => Rejected message
  | Parsed wb =>
      match nth_error (SheetNames wb) 0 with
      | None => Rejected "No sheets found in the workbook."
      | Some firstSheetName =>
          if negb (truthy firstSheetName)
          then Rejected "No sheets found in the workbook."
          else
            let ws := sheetByName (Sheets wb) firstSheetName in
            let rowsArr := sheet_to_json ws in
            match rowsArr with
            | [] => Resolved []
            | first :: _ =>
                let headers := objectKeys first in
                match validateHeaders headers with
                | Some headerErr => Rejected headerErr
                | None => Resolved (map toProgramRow rowsArr)
                end
            end
      end
  end.

Definition isBambang (r : ProgramRow) : bool :=
  (toLowerCase (trim (Campus r)) =? "bambang")%string.

(** The state the component keeps with [useState]. *)
Record AppState := mkAppState {
  loaded : option LoadedData;
  filters : FilterState;
  error : option string
}.

Definition onFileSelected (st : AppState) (file : option FileContents)
  : AppState :=
  let st := {| loaded := loaded st; filters := filters st; error := None |} in
  match file with
  | None => st
  | Some f =>
      match parseXlsxFirstSheet f with
      | Resolved raw =>
          let bambang := filter isBambang raw in
          let removedNonBambangCount :=
            (Z.of_nat (length raw) - Z.of_nat (length bambang))%Z in
          {| loaded := Some (mkLoadedData raw bambang removedNonBambangCount);
             filters := DEFAULT_FILTERS;
             error := error st |}
      | Rejected message =>
          {| loaded := None; filters := filters st; error := Some message |}
      end
  end.

(* ================================================================== *)
(** ** App.tsx: filtering and the KPI summary *)
(* ================================================================== *)

Record DerivedRow := mkDerivedRow {
  row :> ProgramRow;
  AccreditationNormalized : string
}.

Definition matchesMulti (selected : list string) (value : string) : bool :=
  if (length selected =? 0)%nat then true
  else arrayIncludes selected value.

Definition rowsWithDerived (rows : list ProgramRow) : list DerivedRow :=
  map (fun r => mkDerivedRow r (normalizeAccreditation (Accreditation r))) rows.

(** The callback of [rowsWithDerived.filter] in [filteredRows]. *)
Definition keepRow (filters : FilterState) (r : DerivedRow) : bool :=
  if negb (matchesMulti (colleges filters) (College r)) then false else
  if negb (matchesMulti (levels filters) (Level r)) then false else
  if negb (matchesMulti (copcStatuses filters) (COPC_Status r)) then false else
  if negb (matchesMulti (accreditations filters) (AccreditationNormalized r))
  then false else
  if negb (matchesMulti (deans filters) (Dean r)) then false else
  if hideBlankMajor filters && negb (truthy (trim (Major r))) then false else
  if negb (includesSearch r (search filters)) then false else
  true.

Definition filteredRows (rowsWithDerived : list DerivedRow)
  (filters : FilterState) : list DerivedRow :=
  filter (keepRow filters) rowsWithDerived.

Module Kpis.
Record t := mk {
  total : nat;
  issued : nat;
  underApp : nat;
  phaseOut : nat;
  colleges : nat
}.
End Kpis.

Definition kpis (filteredRows : list DerivedRow) : Kpis.t :=
  {| Kpis.total := length filteredRows;
     Kpis.issued :=
       length (filter (fun r : DerivedRow =>
                 (toLowerCase (COPC_Status r) =? "issued")%string) filteredRows);
     Kpis.underApp :=
       length (filter (fun r : DerivedRow =>
                 (toLowerCase (COPC_Status r) =? "under application")%string)
               filteredRows);
     Kpis.phaseOut :=
       length (filter (fun r : DerivedRow =>
                 includes (toLowerCase (COPC_Status r)) "phase-out") filteredRows);
     Kpis.colleges :=
       length (setFromArray
                 (filter truthy (map (fun r : DerivedRow => College r) filteredRows)))
  |}.

(* ================================================================== *)
(** ** App.tsx: the CSV export *)
(* ================================================================== *)

Definition DQUOTE : ascii := "034"%char.
Definition LF : ascii := "010"%char.
Definition CR : ascii := "013"%char.
Definition COMMA : ascii := ","%char.

Definition str (c : ascii) : string := String c EmptyString.

Definition csvHeaders : list string :=
  EXPECTED_HEADERS ++ ["AccreditationNormalized"].

(** [row[h]] on the object [{ ...r, AccreditationNormalized }]. *)
Definition rowProp (r : DerivedRow) (h : string) : option string :=
  if (h =? "Campus")%string then Some (Campus r) else
  if (h =? "College")%string then Some (College r) else
  if (h =? "Program")%string then Some (Program r) else
  if (h =? "Major")%string then Some (Major r) else
  if (h =? "Level")%string then Some (Level r) else
  if (h =? "COPC Status")%string then Some (COPC_Status r) else
  if (h =? "COPC No.")%string then Some (COPC_No r) else
  if (h =? "Contents Notation")%string then Some (Contents_Notation r) else
  if (h =? "Accreditation")%string then Some (Accreditation r) else
  if (h =? "CMO / PSG")%string then Some (CMO_PSG r) else
  if (h =? "BOR Resolution")%string then Some (BOR_Resolution r) else
  if (h =? "Dean")%string then Some (Dean r) else
  if (h =? "AccreditationNormalized")%string
  then Some (AccreditationNormalized r) else
  None.

(** The [escaped] value of one field. *)
Definition csvEscape (v : string) : string :=
  if includes v (str COMMA) || includes v (str DQUOTE) || includes v (str LF)
  then (str DQUOTE ++ replaceAllChar DQUOTE (String DQUOTE (str DQUOTE)) v
          ++ str DQUOTE)%string
  else v.

Definition csvValues (r : DerivedRow) : list string :=
  map (fun h =>
         let v := match rowProp r h with Some x => x | None => EmptyString end in
         csvEscape v)
      csvHeaders.

(** The text handed to the [Blob]. *)
Definition downloadFilteredCsv (filteredRows : list DerivedRow) : string :=
  let lines :=
    join (str COMMA) csvHeaders
      :: map (fun r => join (str COMMA) (csvValues r)) filteredRows in
  join (str LF) lines.

(* ================================================================== *)
(** ** Reference definitions the specification is compared with *)
(* ================================================================== *)

(** The accreditation keywords, in the order the specification gives them,
    each with its canonical label. *)
Definition accreditationPriority : list (string * string) :=
  [ ("LEVEL IV", "Level IV"); ("LEVEL III", "Level III");
    ("LEVEL II", "Level II"); ("LEVEL I", "Level I");
    ("CANDIDATE", "Candidate") ].

Fixpoint firstMatch (table : list (string * string)) (upper : string)
  : option string :=
  match table with
  | [] => None
  | (keyword, label) :: rest =>
      if includes upper keyword then Some label else firstMatch rest upper
  end.

(** The accreditation rule in the specification's words: Unknown when
    empty after trimming, else the label of the first keyword found in the
    uppercased text, else the trimmed text. *)
Definition normalizeAccreditation_spec (raw : string) : string :=
  let v := trim raw in
  match v with
  | EmptyString => "Unknown"
  | _ =>
      match firstMatch accreditationPriority (toUpperCase v) with
      | Some label => label
      | None => v
      end
  end.

(** [q] occurs in [s] as a substring. *)
Definition Occurs (q s : string) : Prop :=
  exists pre post : string, s = (pre ++ q ++ post)%string.

(** Character [c] occurs in [s]. *)
Fixpoint InStr (c : ascii) (s : string) : Prop :=
  match s with
  | EmptyString => False
  | String a s' => a = c \/ InStr c s'
  end.

(** [n] elements of the list satisfy [P]. *)
Inductive CountOf {A : Type} (P : A -> Prop) : list A -> nat -> Prop :=
| CountOf_nil : CountOf P [] 0
| CountOf_hit x l n : P x -> CountOf P l n -> CountOf P (x :: l) (S n)
| CountOf_miss x l n : ~ P x -> CountOf P l n -> CountOf P (x :: l) n.

(** [n] distinct values satisfy [P]. *)
Definition DistinctCount (P : string -> Prop) (n : nat) : Prop :=
  exists l : list string,
    NoDup l /\ (forall c, In c l <-> P c) /\ length l = n.

(** The college of a record that has one. *)
Definition isCollegeOf (rows : list DerivedRow) (c : string) : Prop :=
  c <> EmptyString /\ exists r : DerivedRow, In r rows /\ College r = c.

(** Two strings are equal up to letter case. *)
Definition equalIgnoringCase (a b : string) : Prop :=
  toLowerCase a = toLowerCase b.

(** Every internal double quote written twice. *)
Fixpoint doubleQuotes (v : string) : string :=
  match v with
  | EmptyString => EmptyString
  | String c v' =>
      if Ascii.eqb c DQUOTE
      then String DQUOTE (String DQUOTE (doubleQuotes v'))
      else String c (doubleQuotes v')
  end.

(** The five multi-value dimensions of a filter state. *)
Inductive Dimension :=
| ByCollege | ByLevel | ByCopcStatus | ByAccreditation | ByDean.

Definition selection (d : Dimension) (f : FilterState) : list string :=
  match d with
  | ByCollege => colleges f
  | ByLevel => levels f
  | ByCopcStatus => copcStatuses f
  | ByAccreditation => accreditations f
  | ByDean => deans f
  end.

Definition withSelection (d : Dimension) (s : list string) (f : FilterState)
  : FilterState :=
  {| colleges := match d with ByCollege => s | _ => colleges f end;
     levels := match d with ByLevel => s | _ => levels f end;
     copcStatuses := match d with ByCopcStatus => s | _ => copcStatuses f end;
     accreditations :=
       match d with ByAccreditation => s | _ => accreditations f end;
     deans := match d with ByDean => s | _ => deans f end;
     search := search f;
     hideBlankMajor := hideBlankMajor f |}.

Definition withSearch (q : string) (f : FilterState) : FilterState :=
  {| colleges := colleges f; levels := levels f;
     copcStatuses := copcStatuses f; accreditations := accreditations f;
     deans := deans f; search := q; hideBlankMajor := hideBlankMajor f |}.

Definition withHideBlankMajor (b : bool) (f : FilterState) : FilterState :=
  {| colleges := colleges f; levels := levels f;
     copcStatuses := copcStatuses f; accreditations := accreditations f;
     deans := deans f; search := search f; hideBlankMajor := b |}.

(** One additional constraint on a filter state: a selection that is in
    force shrinks to a smaller selection that is still in force, a
    dimension without a selection gets one, blank majors get hidden, or
    the text to find grows around the text looked for so far. *)
Inductive addConstraint (f : FilterState) : FilterState -> Prop :=
| shrinkSelection (d : Dimension) (s : list string) :
    selection d f <> [] -> s <> [] -> incl s (selection d f) ->
    addConstraint f (withSelection d s f)
| startSelection (d : Dimension) (s : list string) :
    selection d f = [] -> s <> [] ->
    addConstraint f (withSelection d s f)
| hideBlankMajors :
    addConstraint f (withHideBlankMajor true f)
| lengthenSearch (q : string) :
    Occurs (toLowerCase (trim (search f))) (toLowerCase (trim q)) ->
    addConstraint f (withSearch q f).

(** Character [c] occurs in [s], resp. is the last character of [s]. *)
Fixpoint hasChar (c : ascii) (s : string) : bool :=
  match s with
  | EmptyString => false
  | String a s' => Ascii.eqb c a || hasChar c s'
  end.

Fixpoint endsWithChar (c : ascii) (s : string) : bool :=
  match s with
  | EmptyString => false
  | String a EmptyString => Ascii.eqb a c
  | String _ s' => endsWithChar c s'
  end.

(** The value holds a comma, a double quote or a newline. *)
Definition needsQuotes (v : string) : bool :=
  hasChar COMMA v || hasChar DQUOTE v || hasChar LF v.

(** The thirteen values of an exported record, in column order. *)
Definition recordValues (r : DerivedRow) : list string :=
  [ Campus r; College r; Program r; Major r; Level r; COPC_Status r;
    COPC_No r; Contents_Notation r; Accreditation r; CMO_PSG r;
    BOR_Resolution r; Dean r; AccreditationNormalized r ].

(** The text of a table of fields under the export's escaping rule. *)
Definition csvLine (fields : list string) : string :=
  join (str COMMA) (map csvEscape fields).

Definition csvText (records : list (list string)) : string :=
  join (str LF) (map csvLine records).

(** Sample data for the worked examples: a row object with the twelve
    columns and a given Campus cell, and a workbook of one sheet. *)
Definition sampleRawRow (campus : string) : RawRow :=
  [ ("Campus", VString campus); ("College", VString "CAS");
    ("Program", VString "BS Biology"); ("Major", VString "");
    ("Level", VString "Undergraduate"); ("COPC Status", VString "Issued");
    ("COPC No.", VNumber "41"); ("Contents Notation", VString "");
    ("Accreditation", VString "Level II"); ("CMO / PSG", VString "CMO 49");
    ("BOR Resolution", VString "BOR 12"); ("Dean", VString "Dela Cruz") ].

Definition oneSheet (rowsArr : list RawRow) : FileContents :=
  Parsed {| SheetNames := ["Sheet1"]; Sheets := [("Sheet1", rowsArr)] |}.

Definition initialState : AppState :=
  {| loaded := None; filters := DEFAULT_FILTERS; error := None |}.

(** A reader of CSV text after RFC 4180: fields are separated by commas,
    records by a line break (LF, or CR LF); a field that opens with a
    double quote runs to its closing quote, a doubled quote inside it
    standing for one quote; a line break that ends the input opens no
    further record.  A carriage return that no newline follows is taken
    for a character of the field: the standard does not say, and readers
    differ ([readCsvCR] ends the record there; [StandardReader] states
    what both keep to).

    The reader returns the records of its input; the first field of the
    first record continues the field that is open when it is called. *)
Inductive CsvState := FieldStart | Unquoted | Quoted | QuoteSeen.

Definition pushChars (v : string) (recs : list (list string))
  : list (list string) :=
  match recs with
  | (f :: fs) :: rs => ((v ++ f)%string :: fs) :: rs
  | _ => recs
  end.

Definition newField (recs : list (list string)) : list (list string) :=
  match recs with
  | fs :: rs => (EmptyString :: fs) :: rs
  | [] => []
  end.

Definition newRecord (recs : list (list string)) : list (list string) :=
  [EmptyString] :: recs.

Definition startsWithChar (c : ascii) (s : string) : bool :=
  match s with
  | String d _ => Ascii.eqb d c
  | EmptyString => false
  end.

Fixpoint readCsv (st : CsvState) (s : string) : list (list string) :=
  match s with
  | EmptyString => [[EmptyString]]
  | String c s' =>
      match st with
      | Quoted =>
          if Ascii.eqb c DQUOTE then readCsv QuoteSeen s'
          else pushChars (str c) (readCsv Quoted s')
      | _ =>
          if Ascii.eqb c COMMA then newField (readCsv FieldStart s')
          else if Ascii.eqb c LF then
            match s' with
            | EmptyString => [[EmptyString]]
            | _ => newRecord (readCsv FieldStart s')
            end
          else if Ascii.eqb c CR && startsWithChar LF s' then readCsv st s'
          else if Ascii.eqb c DQUOTE then
            match st with
            | FieldStart => readCsv Quoted s'
            | QuoteSeen => pushChars (str c) (readCsv Quoted s')
            | _ => pushChars (str c) (readCsv Unquoted s')
            end
          else pushChars (str c) (readCsv Unquoted s')
      end
  end.

(** What may follow a field: the end of the input, a comma or a newline. *)
Definition fieldEnd (r : string) : Prop :=
  r = EmptyString \/ startsWithChar COMMA r = true \/ startsWithChar LF r = true.

Definition parseCsv (text : string) : list (list string) :=
  readCsv FieldStart text.

(* ================================================================== *)
(** ** App.tsx: option lists and chart data *)
(* ================================================================== *)

(** Of the chart options only the parts computed from the rows are kept
    (categories, counts, the value range); colours, grids and other
    styling constants of the widgets are left out. *)

Module Options.
Record t := mk {
  colleges : list string;
  levels : list string;
  copcStatuses : list string;
  accreditations : list string;
  deans : list string
}.
End Options.

Definition options (rowsWithDerived : list DerivedRow) : Options.t :=
  let colleges := uniqSorted (map (fun r : DerivedRow => College r) rowsWithDerived) in
  let levels := uniqSorted (map (fun r : DerivedRow => Level r) rowsWithDerived) in
  let copcStatuses :=
    uniqSorted (map (fun r : DerivedRow => COPC_Status r) rowsWithDerived) in
  let accreditations :=
    uniqSorted (map AccreditationNormalized rowsWithDerived) in
  let deans := uniqSorted (map (fun r : DerivedRow => Dean r) rowsWithDerived) in
  Options.mk colleges levels copcStatuses accreditations deans.

Module Series.
Record t := mk {
  name : string;
  data : list nat
}.
End Series.

Module BarOption.
Record t := mk {
  xAxis_data : list string;
  series : list Series.t
}.
End BarOption.

Definition copcByCollegeOption (filteredRows : list DerivedRow) : BarOption.t :=
  let colleges := uniqSorted (map (fun r : DerivedRow => College r) filteredRows) in
  let statuses :=
    uniqSorted (map (fun r : DerivedRow => COPC_Status r) filteredRows) in
  let series :=
    map (fun s =>
           let counts :=
             map (fun c =>
                    length (filter (fun r : DerivedRow =>
                                      (College r =? c)%string
                                      && (COPC_Status r =? s)%string)
                                   filteredRows))
                 colleges in
           Series.mk s counts)
        statuses in
  BarOption.mk colleges series.

Definition offeringsByCollegeLevelOption (filteredRows : list DerivedRow)
  : BarOption.t :=
  let colleges := uniqSorted (map (fun r : DerivedRow => College r) filteredRows) in
  let levels := uniqSorted (map (fun r : DerivedRow => Level r) filteredRows) in
  let series :=
    map (fun lvl =>
           Series.mk lvl
             (map (fun c =>
                     length (filter (fun r : DerivedRow =>
                                       (College r =? c)%string
                                       && (Level r =? lvl)%string)
                                    filteredRows))
                  colleges))
        levels in
  BarOption.mk colleges series.

(** [s.split(/\s+/)]: the pieces between the runs of white space, an empty
    piece standing before a leading and after a trailing run. *)
Fixpoint splitWhiteSpace (s : string) : list string :=
  match s with
  | EmptyString => [EmptyString]
  | String c s' =>
      if isWhiteSpace c then
        match s' with
        | String d _ =>
            if isWhiteSpace d then splitWhiteSpace s'
            else EmptyString :: splitWhiteSpace s'
        | EmptyString => EmptyString :: splitWhiteSpace s'
        end
      else
        match splitWhiteSpace s' with
        | w :: ws => String c w :: ws
        | [] => [str c]
        end
  end.

(** One turn of the [for] loop of [wrapAxisLabel] on the pair of the lines
    pushed so far and the line being filled. *)
Definition wrapStep (maxLineLen : nat) (st : list string * string) (p : string)
  : list string * string :=
  let (lines, line) := st in
  let next := if truthy line then (line ++ " " ++ p)%string else p in
  if (maxLineLen <? String.length next)%nat && truthy line
  then (lines ++ [line], p)
  else (lines, next).

(** The [lines] array of [wrapAxisLabel] when the loop and the last push
    are done. *)
Definition wrapLines (maxLineLen : nat) (parts : list string) : list string :=
  let (lines, line) := fold_left (wrapStep maxLineLen) parts ([], EmptyString) in
  if truthy line then lines ++ [line] else lines.

Definition wrapAxisLabel (label : string) (maxLineLen : nat) : string :=
  let s := trim label in
  if negb (truthy s) then EmptyString else
  if (String.length s <=? maxLineLen)%nat then s else
  let parts := filter truthy (splitWhiteSpace s) in
  join (str LF) (firstn 3 (wrapLines maxLineLen parts)).

Module DistOption.
Record t := mk {
  xAxis_data : list string;
  series_data : list nat
}.
End DistOption.

Definition accreditationDistOption (filteredRows : list DerivedRow)
  : DistOption.t :=
  let accs := uniqSorted (map AccreditationNormalized filteredRows) in
  let counts :=
    map (fun a =>
           length (filter (fun r => (AccreditationNormalized r =? a)%string)
                          filteredRows))
        accs in
  DistOption.mk accs counts.



Module HeatmapOption.
Record t := mk {
  xAxis_data : list string;
  yAxis_data : list string;
  data : list (nat * nat * nat);
  visualMap_max : nat
}.
End HeatmapOption.


(** The value a record has in a filter dimension, and the option list of
    a dimension. *)
Definition dimValue (d : Dimension) (r : DerivedRow) : string :=
  match d with
  | ByCollege => College r
  | ByLevel => Level r
  | ByCopcStatus => COPC_Status r
  | ByAccreditation => AccreditationNormalized r
  | ByDean => Dean r
  end.

Definition optionList (d : Dimension) (o : Options.t) : list string :=
  match d with
  | ByCollege => Options.colleges o
  | ByLevel => Options.levels o
  | ByCopcStatus => Options.copcStatuses o
  | ByAccreditation => Options.accreditations o
  | ByDean => Options.deans o
  end.

(** A string without white space at either end, and one that is moreover
    not empty. *)
Definition Trimmed (s : string) : Prop := trim s = s.

Definition Shown (s : string) : Prop := trim s = s /\ s <> EmptyString.

(** [onFileSelected] is an [async] function: [setError(null)] runs at the
    call, the rest when the promise of the parse settles, and other state
    changes (another upload, a change of the filters) may fall between
    the two.  [startUpload] is the first half, [settleUpload] the second;
    [onFileSelected] is the two in a row. *)
Definition setFilters (next : FilterState) (st : AppState) : AppState :=
  {| loaded := loaded st; filters := next; error := error st |}.

Definition startUpload (st : AppState) : AppState :=
  {| loaded := loaded st; filters := filters st; error := None |}.

Definition settleUpload (result : ParseResult) (st : AppState) : AppState :=
  match result with
  | Resolved raw =>
      let bambang := filter isBambang raw in
      let removedNonBambangCount :=
        (Z.of_nat (length raw) - Z.of_nat (length bambang))%Z in
      {| loaded := Some (mkLoadedData raw bambang removedNonBambangCount);
         filters := DEFAULT_FILTERS;
         error := error st |}
  | Rejected message =>
      {| loaded := None; filters := filters st; error := Some message |}
  end.

(** The states of the component: it starts with nothing loaded; an upload
    starts, an upload started earlier settles with the result of its
    parse, or a control of the filter panel calls [setFilters], in any
    order. *)
Inductive Reachable : AppState -> Prop :=
| Reachable_initial : Reachable initialState
| Reachable_start st :
    Reachable st -> Reachable (startUpload st)
| Reachable_settle st file :
    Reachable st -> Reachable (settleUpload (parseXlsxFirstSheet file) st)
| Reachable_filters st next :
    Reachable st -> Reachable (setFilters next st).

(** [uniqSorted] with the comparator of the platform as a parameter. *)
Definition uniqSortedBy (localeCompare : string -> string -> comparison)
  (values : list string) : list string :=
  sort localeCompare (setFromArray (filter truthy (map trim values))).

(** What [Array.prototype.sort] asks of its comparator: swapping the
    arguments swaps the answer, and the order is transitive. *)
Record ConsistentComparator (cmp : string -> string -> comparison) : Prop := {
  cmp_swap : forall x y, cmp y x = CompOpp (cmp x y);
  cmp_chain : forall x y z, cmp x y <> Gt -> cmp y z <> Gt -> cmp x z <> Gt
}.

(** The characters of the string are ASCII characters. *)
Fixpoint asciiOnly (s : string) : bool :=
  match s with
  | EmptyString => true
  | String c s' => (nat_of_ascii c <? 128)%nat && asciiOnly s'
  end.

(** A field value that holds a carriage return is written in quotes. *)
Definition quotedIfCR (v : string) : Prop :=
  hasChar CR v = true -> needsQuotes v = true.

(** What the readers of CSV text agree on, as equations of a reader that
    is given the state it is in: a comma ends a field and a newline a
    record; a quote at the start of a field opens a quoted field, in which
    a doubled quote is a quote and a single one closes the field; any
    other character, the carriage return apart, is part of the field.
    What a reader makes of a carriage return outside quotes is left
    open. *)
Record StandardReader (rd : CsvState -> string -> list (list string))
  : Prop := {
  rd_end : forall st, st <> Quoted -> rd st EmptyString = [[EmptyString]];
  rd_comma : forall st s,
    st <> Quoted -> rd st (String COMMA s) = newField (rd FieldStart s);
  rd_newline : forall st s,
    st <> Quoted ->
    rd st (String LF s)
    = match s with
      | EmptyString => [[EmptyString]]
      | _ => newRecord (rd FieldStart s)
      end;
  rd_open : forall s, rd FieldStart (String DQUOTE s) = rd Quoted s;
  rd_plain : forall st c s,
    st = FieldStart \/ st = Unquoted ->
    c <> COMMA -> c <> DQUOTE -> c <> LF -> c <> CR ->
    rd st (String c s) = pushChars (str c) (rd Unquoted s);
  rd_quoted : forall c s,
    c <> DQUOTE -> rd Quoted (String c s) = pushChars (str c) (rd Quoted s);
  rd_close : forall s, rd Quoted (String DQUOTE s) = rd QuoteSeen s;
  rd_escaped : forall s,
    rd QuoteSeen (String DQUOTE s) = pushChars (str DQUOTE) (rd Quoted s)
}.

(** A reader that, unlike [readCsv], ends a record at a carriage return
    outside quotes, followed by a newline or not. *)
Fixpoint readCsvCR (st : CsvState) (s : string) : list (list string) :=
  match s with
  | EmptyString => [[EmptyString]]
  | String c s' =>
      match st with
      | Quoted =>
          if Ascii.eqb c DQUOTE then readCsvCR QuoteSeen s'
          else pushChars (str c) (readCsvCR Quoted s')
      | _ =>
          if Ascii.eqb c COMMA then newField (readCsvCR FieldStart s')
          else if Ascii.eqb c LF then
            match s' with
            | EmptyString => [[EmptyString]]
            | _ => newRecord (readCsvCR FieldStart s')
            end
          else if Ascii.eqb c CR then
            if startsWithChar LF s' then readCsvCR st s'
            else
              match s' with
              | EmptyString => [[EmptyString]]
              | _ => newRecord (readCsvCR FieldStart s')
              end
          else if Ascii.eqb c DQUOTE then
            match st with
            | FieldStart => readCsvCR Quoted s'
            | QuoteSeen => pushChars (str c) (readCsvCR Quoted s')
            | _ => pushChars (str c) (readCsvCR Unquoted s')
            end
          else pushChars (str c) (readCsvCR Unquoted s')
      end
  end.

(** A word: not empty, without white space.  A line of words that is
    well filled: it has a word, and more than one only if it fits in
    [maxLineLen] characters. *)
Definition Word (w : string) : Prop :=
  w <> EmptyString /\ forall c, InStr c w -> isWhiteSpace c = false.

Definition wellFilled (maxLineLen : nat) (words : list string) : Prop :=
  words <> []
  /\ (length words = 1 \/ String.length (join " " words) <= maxLineLen).

(* ================================================================== *)
(** * Properties *)
(* ================================================================== *)

(** ** Strings: concatenation, prefixes and occurrences *)

Section StringFacts.

Lemma sapp_nil_r (s : string) : (s ++ "")%string = s.
Proof. induction s as [|c s IH]; simpl; [reflexivity | now rewrite IH]. Qed.

Lemma sapp_assoc (a b c : string) :
  ((a ++ b) ++ c)%string = (a ++ (b ++ c))%string.
Proof. induction a as [|x a IH]; simpl; [reflexivity | now rewrite IH]. Qed.

Lemma truthy_true_iff (s : string) : truthy s = true <-> s <> EmptyString.
Proof. destruct s; simpl; split; congruence. Qed.

Lemma truthy_false_iff (s : string) : truthy s = false <-> s = EmptyString.
Proof. destruct s; simpl; split; congruence. Qed.

Lemma startsWith_iff (s q : string) :
  startsWith s q = true <-> exists post, s = (q ++ post)%string.
Proof.
  revert s; induction q as [|a q IH]; intros s; simpl.
  - split; [intros _; now exists s | reflexivity].
  - destruct s as [|b s].
    + split; [discriminate | intros [post H]; discriminate].
    + rewrite andb_true_iff, Ascii.eqb_eq, IH. split.
      * intros [-> [post ->]]. now exists post.
      * intros [post H]. injection H as -> ->. split; [reflexivity | now exists post].
Qed.

Lemma includes_iff (s q : string) : includes s q = true <-> Occurs q s.
Proof.
  unfold Occurs. induction s as [|c s IH].
  - simpl. rewrite orb_false_r, startsWith_iff. split.
    + intros [post H]. now exists EmptyString, post.
    + intros [pre [post H]]. destruct pre; [now exists post | discriminate].
  - cbn [includes]. rewrite orb_true_iff, IH, startsWith_iff. split.
    + intros [[post H] | [pre [post H]]].
      * now exists EmptyString, post.
      * exists (String c pre), post. simpl. now rewrite H.
    + intros [[|x pre] [post H]].
      * left. now exists post.
      * right. simpl in H. injection H as _ H. now exists pre, post.
Qed.

Lemma Occurs_refl (s : string) : Occurs s s.
Proof. exists EmptyString, EmptyString. simpl. now rewrite sapp_nil_r. Qed.

Lemma Occurs_trans (a b c : string) : Occurs a b -> Occurs b c -> Occurs a c.
Proof.
  intros [p1 [q1 ->]] [p2 [q2 ->]].
  exists (p2 ++ p1)%string, (q1 ++ q2)%string.
  now rewrite !sapp_assoc.
Qed.

Lemma Occurs_app_l (q a b : string) : Occurs q a -> Occurs q (a ++ b)%string.
Proof.
  intros [p [r ->]]. exists p, (r ++ b)%string. now rewrite !sapp_assoc.
Qed.

Lemma Occurs_app_r (q a b : string) : Occurs q b -> Occurs q (a ++ b)%string.
Proof.
  intros [p [r ->]]. exists (a ++ p)%string, r. now rewrite !sapp_assoc.
Qed.

Lemma includes_trans (a b c : string) :
  includes c b = true -> includes b a = true -> includes c a = true.
Proof.
  rewrite !includes_iff. intros H1 H2. exact (Occurs_trans _ _ _ H2 H1).
Qed.

Lemma includes_empty_needle (s : string) : includes s EmptyString = true.
Proof. destruct s; reflexivity. Qed.

Lemma includes_empty_haystack (q : string) :
  truthy q = true -> includes EmptyString q = false.
Proof. destruct q; [discriminate | reflexivity]. Qed.

Lemma includes_truthy (s q : string) :
  truthy q = true -> includes s q = true -> truthy s = true.
Proof.
  intros Hq H. destruct s; [|reflexivity].
  now rewrite includes_empty_haystack in H.
Qed.

Lemma arrayIncludes_iff (arr : list string) (v : string) :
  arrayIncludes arr v = true <-> In v arr.
Proof.
  unfold arrayIncludes. rewrite existsb_exists. split.
  - intros [x [Hin Heq]]. apply String.eqb_eq in Heq. now subst.
  - intros Hin. exists v. split; [assumption | apply String.eqb_refl].
Qed.

Lemma arrayIncludes_false_iff (arr : list string) (v : string) :
  arrayIncludes arr v = false <-> ~ In v arr.
Proof.
  rewrite <- arrayIncludes_iff. destruct (arrayIncludes arr v); split; congruence.
Qed.

(** *** Case mapping and trimming *)

Lemma isWhiteSpace_toUpperChar (c : ascii) :
  isWhiteSpace (toUpperChar c) = isWhiteSpace c.
Proof. destruct c as [[] [] [] [] [] [] [] []]; reflexivity. Qed.

Lemma isWhiteSpace_toLowerChar (c : ascii) :
  isWhiteSpace (toLowerChar c) = isWhiteSpace c.
Proof. destruct c as [[] [] [] [] [] [] [] []]; reflexivity. Qed.

Lemma truthy_mapChars (f : ascii -> ascii) (s : string) :
  truthy (mapChars f s) = truthy s.
Proof. destruct s; reflexivity. Qed.

Lemma mapChars_app (f : ascii -> ascii) (a b : string) :
  mapChars f (a ++ b)%string = (mapChars f a ++ mapChars f b)%string.
Proof. induction a as [|c a IH]; simpl; [reflexivity | now rewrite IH]. Qed.

Lemma Occurs_mapChars (f : ascii -> ascii) (q s : string) :
  Occurs q s -> Occurs (mapChars f q) (mapChars f s).
Proof.
  intros [p [r ->]]. exists (mapChars f p), (mapChars f r).
  now rewrite !mapChars_app.
Qed.

Section MapTrim.
Variable f : ascii -> ascii.
Hypothesis f_space : forall c, isWhiteSpace (f c) = isWhiteSpace c.

Lemma mapChars_trimStart (s : string) :
  mapChars f (trimStart s) = trimStart (mapChars f s).
Proof.
  induction s as [|c s IH]; simpl; [reflexivity|].
  rewrite f_space. destruct (isWhiteSpace c); [exact IH | reflexivity].
Qed.

Lemma mapChars_trimEnd (s : string) :
  mapChars f (trimEnd s) = trimEnd (mapChars f s).
Proof.
  induction s as [|c s IH]; simpl; [reflexivity|].
  rewrite f_space, <- IH, truthy_mapChars.
  destruct (isWhiteSpace c && negb (truthy (trimEnd s))); reflexivity.
Qed.

Lemma mapChars_trim (s : string) : mapChars f (trim s) = trim (mapChars f s).
Proof. unfold trim. now rewrite mapChars_trimEnd, mapChars_trimStart. Qed.
End MapTrim.

Lemma toUpperCase_trim (s : string) : toUpperCase (trim s) = trim (toUpperCase s).
Proof. apply mapChars_trim, isWhiteSpace_toUpperChar. Qed.

Lemma toLowerCase_trim (s : string) : toLowerCase (trim s) = trim (toLowerCase s).
Proof. apply mapChars_trim, isWhiteSpace_toLowerChar. Qed.

(** A needle that neither starts nor ends with white space survives
    trimming of the haystack. *)
Lemma startsWith_trimEnd (q s : string) :
  truthy q = true -> trimEnd q = q ->
  startsWith s q = true -> startsWith (trimEnd s) q = true.
Proof.
  revert s; induction q as [|a q IH]; intros s Hq Hfix H; [discriminate|].
  destruct s as [|b s]; [discriminate|].
  simpl in H. apply andb_true_iff in H as [Hab Hs].
  apply Ascii.eqb_eq in Hab; subst b.
  simpl in Hfix.
  destruct (isWhiteSpace a && negb (truthy (trimEnd q))) eqn:Hw; [discriminate|].
  injection Hfix as Hfix.
  destruct q as [|a' q'].
  - simpl in Hw. rewrite andb_true_r in Hw. simpl. rewrite Hw. simpl.
    now rewrite Ascii.eqb_refl.
  - assert (Hrec : startsWith (trimEnd s) (String a' q') = true)
      by (apply IH; [reflexivity | assumption | assumption]).
    assert (Ht : truthy (trimEnd s) = true).
    { destruct (trimEnd s); [discriminate | reflexivity]. }
    cbn [trimEnd]. rewrite Ht, andb_false_r.
    change (Ascii.eqb a a && startsWith (trimEnd s) (String a' q') = true).
    now rewrite Ascii.eqb_refl, Hrec.
Qed.

Lemma includes_trimEnd (q s : string) :
  truthy q = true -> trimEnd q = q ->
  includes s q = true -> includes (trimEnd s) q = true.
Proof.
  intros Hq Hfix. induction s as [|c s IH]; intros H.
  - now rewrite includes_empty_haystack in H.
  - cbn [includes] in H. apply orb_true_iff in H as [H | H].
    + apply (startsWith_trimEnd q _ Hq Hfix) in H.
      destruct (trimEnd (String c s)); cbn [includes]; now rewrite H.
    + specialize (IH H).
      assert (Ht : truthy (trimEnd s) = true) by exact (includes_truthy _ _ Hq IH).
      cbn [trimEnd]. rewrite Ht, andb_false_r.
      cbn [includes]. rewrite IH. apply orb_true_r.
Qed.

Lemma includes_trimStart (a : ascii) (q s : string) :
  isWhiteSpace a = false ->
  includes s (String a q) = true -> includes (trimStart s) (String a q) = true.
Proof.
  intros Ha. induction s as [|c s IH]; intros H; [exact H|].
  cbn [trimStart]. destruct (isWhiteSpace c) eqn:Hc; [|exact H].
  cbn [includes] in H. apply orb_true_iff in H as [H | H]; [|exact (IH H)].
  simpl in H. apply andb_true_iff in H as [Hac _].
  apply Ascii.eqb_eq in Hac. congruence.
Qed.

Lemma includes_trim (a : ascii) (q s : string) :
  isWhiteSpace a = false -> trimEnd (String a q) = String a q ->
  includes s (String a q) = true -> includes (trim s) (String a q) = true.
Proof.
  intros Ha Hfix H. unfold trim.
  apply includes_trimEnd; [reflexivity | assumption |].
  now apply includes_trimStart.
Qed.

End StringFacts.

(* ================================================================== *)
(** ** The accreditation taxonomy *)
(* ================================================================== *)

Section Accreditation.

(** The first keyword of a table that occurs decides the label. *)
Lemma firstMatch_at (table : list (string * string)) (upper : string) :
  forall i keyword label,
    nth_error table i = Some (keyword, label) ->
    includes upper keyword = true ->
    (forall j k l, j < i -> nth_error table j = Some (k, l) ->
                   includes upper k = false) ->
    firstMatch table upper = Some label.
Proof.
  induction table as [|[k0 l0] table IH]; intros i keyword label Hnth Hin Hbefore.
  - destruct i; discriminate.
  - destruct i as [|i]; simpl in Hnth.
    + injection Hnth as -> ->. simpl. now rewrite Hin.
    + simpl. rewrite (Hbefore 0 k0 l0); [|lia|reflexivity].
      apply (IH i keyword label Hnth Hin).
      intros j k l Hj Hjth. apply (Hbefore (S j) k l); [lia | exact Hjth].
Qed.

Lemma firstMatch_none (table : list (string * string)) (upper : string) :
  (forall k l, In (k, l) table -> includes upper k = false) ->
  firstMatch table upper = None.
Proof.
  induction table as [|[k0 l0] table IH]; intros H; [reflexivity|].
  simpl. rewrite (H k0 l0) by (left; reflexivity).
  apply IH. intros k l Hin. apply (H k l). now right.
Qed.

Lemma normalizeAccreditation_refines (raw : string) :
  normalizeAccreditation raw = normalizeAccreditation_spec raw.
Proof.
  unfold normalizeAccreditation, normalizeAccreditation_spec.
  destruct (trim raw) as [|c v] eqn:Hv; [reflexivity|].
  cbn [truthy negb accreditationPriority firstMatch].
  repeat match goal with
         | |- context [includes ?u ?k] => destruct (includes u k); [reflexivity|]
         end.
  reflexivity.
Qed.

Lemma normalizeAccreditation_level_iv (raw : string) :
  includes (toUpperCase raw) "LEVEL IV" = true ->
  normalizeAccreditation raw = "Level IV".
Proof.
  intros H.
  assert (Hu : includes (toUpperCase (trim raw)) "LEVEL IV" = true).
  { rewrite toUpperCase_trim. apply includes_trim; [reflexivity | reflexivity | exact H]. }
  assert (Ht : truthy (trim raw) = true).
  { rewrite <- (truthy_mapChars toUpperChar).
    exact (includes_truthy _ "LEVEL IV" eq_refl Hu). }
  unfold normalizeAccreditation. rewrite Ht. cbn [negb].
  fold (toUpperCase (trim raw)). now rewrite Hu.
Qed.

(** C1.  [normalizeAccreditation] answers Unknown when the input is empty
    after trimming; otherwise the trimmed input is uppercased for matching
    only and the keywords LEVEL IV, LEVEL III, LEVEL II, LEVEL I, CANDIDATE
    are tried in that order, the first one that occurs giving its canonical
    label, and when none occurs the trimmed original text is returned.
    Level I Candidate gives Level I, and a text in which LEVEL IV occurs
    (in any letter case) always gives Level IV. *)
Theorem normalizeAccreditation_first_match_wins :
  (forall raw, normalizeAccreditation raw = normalizeAccreditation_spec raw)
  /\ (forall raw, trim raw = EmptyString -> normalizeAccreditation raw = "Unknown")
  /\ (forall raw i keyword label,
        trim raw <> EmptyString ->
        nth_error accreditationPriority i = Some (keyword, label) ->
        includes (toUpperCase (trim raw)) keyword = true ->
        (forall j k l, j < i -> nth_error accreditationPriority j = Some (k, l) ->
                       includes (toUpperCase (trim raw)) k = false) ->
        normalizeAccreditation raw = label)
  /\ (forall raw,
        trim raw <> EmptyString ->
        (forall k l, In (k, l) accreditationPriority ->
                     includes (toUpperCase (trim raw)) k = false) ->
        normalizeAccreditation raw = trim raw)
  /\ normalizeAccreditation "Level I Candidate" = "Level I"
  /\ (forall raw, includes (toUpperCase raw) "LEVEL IV" = true ->
                  normalizeAccreditation raw = "Level IV").
Proof.
  split; [exact normalizeAccreditation_refines|].
  split.
  { intros raw H. rewrite normalizeAccreditation_refines.
    unfold normalizeAccreditation_spec. now rewrite H. }
  split.
  { intros raw i keyword label Hne Hnth Hin Hbefore.
    rewrite normalizeAccreditation_refines. unfold normalizeAccreditation_spec.
    rewrite (firstMatch_at _ _ i keyword label Hnth Hin Hbefore).
    destruct (trim raw); [congruence | reflexivity]. }
  split.
  { intros raw Hne Hnone.
    rewrite normalizeAccreditation_refines. unfold normalizeAccreditation_spec.
    rewrite (firstMatch_none _ _ Hnone).
    destruct (trim raw); [congruence | reflexivity]. }
  split; [reflexivity | exact normalizeAccreditation_level_iv].
Qed.

Lemma normalizeAccreditation_first_match_wins_witness :
  normalizeAccreditation "   " = "Unknown"
  /\ normalizeAccreditation " Accredited level iii program " = "Level III"
  /\ normalizeAccreditation " AACCUP visited " = "AACCUP visited"
  /\ normalizeAccreditation "candidate for Level IV (was level ii)" = "Level IV".
Proof.
  destruct normalizeAccreditation_first_match_wins
    as [_ [Hempty [Hfirst [Hnone [_ Hiv]]]]].
  split; [apply Hempty; reflexivity|].
  split.
  { apply (Hfirst _ 1 "LEVEL III"); [discriminate | reflexivity | reflexivity|].
    intros j k l Hj Hnth. destruct j as [|j]; [|lia].
    injection Hnth as <- _. reflexivity. }
  split.
  { apply Hnone; [discriminate|].
    intros k l Hin. simpl in Hin.
    repeat (destruct Hin as [Hin | Hin];
            [injection Hin as <- _; reflexivity|]).
    contradiction. }
  apply Hiv. reflexivity.
Defined.

End Accreditation.

(* ================================================================== *)
(** ** Distinct values: [Set] and [sort] *)
(* ================================================================== *)

Section SetFacts.

Lemma setAdd_In (acc : list string) (x y : string) :
  In y (setAdd acc x) <-> In y acc \/ y = x.
Proof.
  unfold setAdd. destruct (arrayIncludes acc x) eqn:E.
  - apply arrayIncludes_iff in E. split; [now left | intros [H | ->]; assumption].
  - rewrite in_app_iff. simpl. intuition congruence.
Qed.

Lemma setAdd_NoDup (acc : list string) (x : string) :
  NoDup acc -> NoDup (setAdd acc x).
Proof.
  intros H. unfold setAdd. destruct (arrayIncludes acc x) eqn:E; [assumption|].
  apply arrayIncludes_false_iff in E.
  apply NoDup_rev in H. rewrite <- (rev_involutive (acc ++ [x])).
  apply NoDup_rev. rewrite rev_app_distr. simpl.
  constructor; [now rewrite <- in_rev | assumption].
Qed.

Lemma fold_setAdd_In (arr acc : list string) (y : string) :
  In y (fold_left setAdd arr acc) <-> In y acc \/ In y arr.
Proof.
  revert acc; induction arr as [|x arr IH]; intros acc; simpl.
  - intuition.
  - rewrite IH, setAdd_In. intuition.
Qed.

Lemma fold_setAdd_NoDup (arr acc : list string) :
  NoDup acc -> NoDup (fold_left setAdd arr acc).
Proof.
  revert acc; induction arr as [|x arr IH]; intros acc H; simpl; [assumption|].
  apply IH, setAdd_NoDup, H.
Qed.

Lemma setFromArray_In (arr : list string) (y : string) :
  In y (setFromArray arr) <-> In y arr.
Proof. unfold setFromArray. rewrite fold_setAdd_In. simpl. intuition. Qed.

Lemma setFromArray_NoDup (arr : list string) : NoDup (setFromArray arr).
Proof. apply fold_setAdd_NoDup. constructor. Qed.

End SetFacts.

Section SortFacts.
Context {A : Type} (cmp : A -> A -> comparison).
Hypothesis cmp_total : forall x y, cmp x y = Gt -> cmp y x <> Gt.
Hypothesis cmp_trans :
  forall x y z, cmp x y <> Gt -> cmp y z <> Gt -> cmp x z <> Gt.

Lemma insertSorted_perm (x : A) (l : list A) :
  Permutation (insertSorted cmp x l) (x :: l).
Proof.
  induction l as [|y l IH]; simpl; [reflexivity|].
  destruct (cmp x y); try reflexivity.
  rewrite IH. apply perm_swap.
Qed.

Lemma sort_perm (l : list A) : Permutation (sort cmp l) l.
Proof.
  induction l as [|x l IH]; simpl; [reflexivity|].
  rewrite insertSorted_perm. now constructor.
Qed.

Lemma insertSorted_sorted (x : A) (l : list A) :
  StronglySorted (notAfter cmp) l ->
  StronglySorted (notAfter cmp) (insertSorted cmp x l).
Proof.
  induction l as [|y l IH]; intros Hs; simpl.
  - constructor; constructor.
  - inversion Hs as [|? ? Hl Hy]; subst.
    assert (Hle : cmp x y <> Gt ->
                  StronglySorted (notAfter cmp) (x :: y :: l)).
    { intros Hxy. constructor; [assumption|].
      constructor; [exact Hxy|].
      rewrite Forall_forall in *. intros z Hz.
      exact (cmp_trans x y z Hxy (Hy z Hz)). }
    destruct (cmp x y) eqn:E; try (apply Hle; congruence).
    constructor; [apply IH, Hl|].
    rewrite Forall_forall in *. intros z Hz.
    apply (Permutation_in _ (insertSorted_perm x l)) in Hz.
    destruct Hz as [<- | Hz]; [exact (cmp_total _ _ E) | exact (Hy z Hz)].
Qed.

Lemma sort_sorted (l : list A) : StronglySorted (notAfter cmp) (sort cmp l).
Proof.
  induction l as [|x l IH]; simpl; [constructor | now apply insertSorted_sorted].
Qed.
End SortFacts.

Section CompareFacts.

Lemma string_compare_trans (a b c : string) :
  String.compare a b <> Gt -> String.compare b c <> Gt ->
  String.compare a c <> Gt.
Proof.
  revert b c; induction a as [|x a IH]; intros [|y b] [|z c]; simpl;
    try congruence.
  unfold Ascii.compare.
  destruct (N.compare_spec (N_of_ascii x) (N_of_ascii y)) as [Hxy | Hxy | Hxy];
    destruct (N.compare_spec (N_of_ascii y) (N_of_ascii z)) as [Hyz | Hyz | Hyz];
    destruct (N.compare_spec (N_of_ascii x) (N_of_ascii z)) as [Hxz | Hxz | Hxz];
    try congruence; try lia.
  apply IH.
Qed.

Lemma localeCompareBase_total (a b : string) :
  localeCompareBase a b = Gt -> localeCompareBase b a <> Gt.
Proof.
  unfold localeCompareBase. rewrite String.compare_antisym.
  destruct (String.compare (toLowerCase b) (toLowerCase a)); simpl; congruence.
Qed.

Lemma localeCompareBase_trans (a b c : string) :
  localeCompareBase a b <> Gt -> localeCompareBase b c <> Gt ->
  localeCompareBase a c <> Gt.
Proof. apply string_compare_trans. Qed.

(** Letter case is invisible to the comparator. *)
Lemma toLowerChar_idem (c : ascii) : toLowerChar (toLowerChar c) = toLowerChar c.
Proof. destruct c as [[] [] [] [] [] [] [] []]; reflexivity. Qed.

Lemma toLowerCase_idem (s : string) : toLowerCase (toLowerCase s) = toLowerCase s.
Proof.
  unfold toLowerCase. induction s as [|c s IH]; cbn [mapChars]; [reflexivity|].
  rewrite toLowerChar_idem. f_equal. exact IH.
Qed.

Lemma localeCompareBase_eq_iff (a b : string) :
  localeCompareBase a b = Eq <-> equalIgnoringCase a b.
Proof.
  unfold localeCompareBase, equalIgnoringCase. split.
  - apply String.compare_eq_iff.
  - intros ->. induction (toLowerCase b) as [|c s IH]; simpl; [reflexivity|].
    unfold Ascii.compare. now rewrite N.compare_refl.
Qed.

End CompareFacts.

Section UniqSorted.

Lemma uniqSorted_In (values : list string) (x : string) :
  In x (uniqSorted values) <->
  x <> EmptyString /\ exists v, In v values /\ x = trim v.
Proof.
  unfold uniqSorted. split.
  - intros H. apply (Permutation_in _ (sort_perm _ _)) in H.
    apply setFromArray_In, filter_In in H as [H Ht].
    apply in_map_iff in H as [v [<- Hv]].
    split; [now apply truthy_true_iff | now exists v].
  - intros [Hne [v [Hv ->]]].
    apply (Permutation_in _ (Permutation_sym (sort_perm _ _))).
    apply setFromArray_In, filter_In. split.
    + apply in_map, Hv.
    + now apply truthy_true_iff.
Qed.

Lemma uniqSorted_NoDup (values : list string) : NoDup (uniqSorted values).
Proof.
  unfold uniqSorted.
  eapply Permutation_NoDup; [apply Permutation_sym, sort_perm|].
  apply setFromArray_NoDup.
Qed.

Lemma uniqSortedBy_In (cmp : string -> string -> comparison)
  (values : list string) (x : string) :
  In x (uniqSortedBy cmp values) <->
  x <> EmptyString /\ exists v, In v values /\ x = trim v.
Proof.
  unfold uniqSortedBy. split.
  - intros H. apply (Permutation_in _ (sort_perm _ _)) in H.
    apply setFromArray_In, filter_In in H as [H Ht].
    apply in_map_iff in H as [v [<- Hv]].
    split; [now apply truthy_true_iff | now exists v].
  - intros [Hne [v [Hv ->]]].
    apply (Permutation_in _ (Permutation_sym (sort_perm _ _))).
    apply setFromArray_In, filter_In. split.
    + apply in_map, Hv.
    + now apply truthy_true_iff.
Qed.

Lemma uniqSortedBy_NoDup (cmp : string -> string -> comparison)
  (values : list string) : NoDup (uniqSortedBy cmp values).
Proof.
  unfold uniqSortedBy.
  eapply Permutation_NoDup; [apply Permutation_sym, sort_perm|].
  apply setFromArray_NoDup.
Qed.

Lemma consistent_total (cmp : string -> string -> comparison) :
  ConsistentComparator cmp -> forall x y, cmp x y = Gt -> cmp y x <> Gt.
Proof.
  intros H x y Hxy. rewrite (cmp_swap cmp H x y), Hxy. discriminate.
Qed.

Lemma localeCompareBase_consistent : ConsistentComparator localeCompareBase.
Proof.
  split.
  - intros x y. unfold localeCompareBase. apply String.compare_antisym.
  - exact localeCompareBase_trans.
Qed.

(** C2, as the code has it.  Whatever consistent comparator the platform
    gives for the locale-aware, case-insensitive comparison, [uniqSorted]
    trims every value, discards the values that are empty after trimming,
    removes duplicates by exact string equality, and sorts by that
    comparator.  Values that differ only in letter case are therefore both
    kept: on b, a, a between spaces, the empty string and B the result has
    three values, and it is a, b, B when the comparator puts a before b
    and takes b and B for equal. *)
Theorem uniqSorted_exact_duplicates_only
  (localeCompare : string -> string -> comparison) :
  ConsistentComparator localeCompare ->
  (forall values,
     (forall x, In x (uniqSortedBy localeCompare values) <->
                x <> EmptyString /\ exists v, In v values /\ x = trim v)
     /\ NoDup (uniqSortedBy localeCompare values)
     /\ StronglySorted (notAfter localeCompare)
          (uniqSortedBy localeCompare values))
  /\ length (uniqSortedBy localeCompare ["b"; "a"; " a "; ""; "B"]) = 3
  /\ (localeCompare "a" "b" = Lt -> localeCompare "b" "B" = Eq ->
      uniqSortedBy localeCompare ["b"; "a"; " a "; ""; "B"] = ["a"; "b"; "B"]).
Proof.
  intros Hc. split; [|split].
  - intros values. split; [intros x; apply uniqSortedBy_In|].
    split; [apply uniqSortedBy_NoDup|].
    apply sort_sorted.
    + exact (consistent_total _ Hc).
    + exact (cmp_chain _ Hc).
  - unfold uniqSortedBy. now rewrite (Permutation_length (sort_perm _ _)).
  - intros Hab HbB.
    assert (HaB : localeCompare "a" "B" <> Gt).
    { apply (cmp_chain _ Hc "a" "b" "B"); congruence. }
    assert (Hba : localeCompare "b" "a" = Gt).
    { rewrite (cmp_swap _ Hc "a" "b"), Hab. reflexivity. }
    change (uniqSortedBy localeCompare ["b"; "a"; " a "; ""; "B"])
      with (insertSorted localeCompare "b"
              (insertSorted localeCompare "a" ["B"])).
    assert (E1 : insertSorted localeCompare "a" ["B"] = ["a"; "B"]).
    { cbn [insertSorted]. destruct (localeCompare "a" "B"); congruence. }
    rewrite E1. cbn [insertSorted]. now rewrite Hba, HbB.
Qed.

Lemma uniqSorted_exact_duplicates_only_witness :
  uniqSortedBy localeCompareBase ["b"; "a"; " a "; ""; "B"] = ["a"; "b"; "B"]
  /\ StronglySorted (notAfter localeCompareBase)
       (uniqSortedBy localeCompareBase ["CTE"; "cas"; " CAS"; "CBA"]).
Proof.
  destruct (uniqSorted_exact_duplicates_only localeCompareBase
              localeCompareBase_consistent) as [Hall [_ Hex]].
  split.
  - apply Hex; reflexivity.
  - apply (Hall ["CTE"; "cas"; " CAS"; "CBA"]).
Defined.

(** C2 as stated fails: the values b and B are not identified. *)
Lemma uniqSorted_keeps_both_letter_cases :
  uniqSorted ["b"; "a"; " a "; ""; "B"] <> ["a"; "b"]
  /\ forall localeCompare,
       uniqSortedBy localeCompare ["b"; "a"; " a "; ""; "B"] <> ["a"; "b"].
Proof.
  split; [vm_compute; discriminate|].
  intros cmp H. apply (f_equal (@length string)) in H.
  unfold uniqSortedBy in H.
  rewrite (Permutation_length (sort_perm cmp _)) in H. discriminate H.
Qed.

(** Whatever the comparator, sorting keeps the three distinct values. *)
Remark sort_keeps_both_letter_cases (cmp : string -> string -> comparison) :
  length (sort cmp (setFromArray (filter truthy
                      (map trim ["b"; "a"; " a "; ""; "B"])))) = 3.
Proof. now rewrite (Permutation_length (sort_perm cmp _)). Qed.

End UniqSorted.

(* ================================================================== *)
(** ** The filter engine *)
(* ================================================================== *)

Section FilterEngine.

Lemma trim_truthy_query (q : string) :
  truthy (toLowerCase (trim q)) = truthy (trim q).
Proof. apply truthy_mapChars. Qed.

Lemma includesSearch_blank (r : ProgramRow) (q : string) :
  trim q = EmptyString -> includesSearch r q = true.
Proof. intros H. unfold includesSearch. now rewrite H. Qed.

Lemma includesSearch_occurs (r : ProgramRow) (q : string) :
  trim q <> EmptyString ->
  (includesSearch r q = true <-> Occurs (toLowerCase (trim q)) (haystackOf r)).
Proof.
  intros H. unfold includesSearch.
  rewrite trim_truthy_query.
  apply truthy_true_iff in H. rewrite H. cbn [negb].
  apply includes_iff.
Qed.

(** C5.  The search passes when the trimmed search string is empty;
    otherwise it passes exactly when the trimmed, lowercased search string
    occurs in the lowercased text made of Program, Major, COPC No.,
    CMO / PSG, BOR Resolution, Contents Notation, College, Level, COPC
    Status, raw Accreditation and Dean, joined by a pipe between spaces,
    the empty ones left out; Campus has no part in it. *)
Theorem includesSearch_is_substring_of_joined_fields :
  (forall (r : ProgramRow) q, trim q = EmptyString -> includesSearch r q = true)
  /\ (forall (r : ProgramRow) q,
        trim q <> EmptyString ->
        (includesSearch r q = true <->
         Occurs (toLowerCase (trim q))
           (toLowerCase
              (join " | "
                 (filter (fun s => negb (s =? EmptyString)%string)
                    [ Program r; Major r; COPC_No r; CMO_PSG r;
                      BOR_Resolution r; Contents_Notation r; College r;
                      Level r; COPC_Status r; Accreditation r; Dean r ])))))
  /\ (forall (r : ProgramRow),
        Forall (fun s => s <> EmptyString) (filter truthy (searchFields r)))
  /\ (forall campus campus' college program major level status no notation
             accreditation cmo bor dean q,
        includesSearch
          (mkProgramRow campus college program major level status no notation
             accreditation cmo bor dean) q
        = includesSearch
            (mkProgramRow campus' college program major level status no
               notation accreditation cmo bor dean) q)
  /\ (let r := mkProgramRow "Bambang" "" "A" "" "" "" "B" "" "" "" "" "" in
      haystackOf r = "a | b"
      /\ includesSearch r "A | B" = true
      /\ includesSearch r "a |  | b" = false
      /\ includesSearch r "bambang" = false).
Proof.
  split; [exact includesSearch_blank|].
  split.
  { intros r q H. rewrite (includesSearch_occurs r q H).
    unfold haystackOf, searchFields.
    rewrite (filter_ext (fun s => negb (s =? EmptyString)%string) truthy);
      [reflexivity | intros []; reflexivity]. }
  split.
  { intros r. apply Forall_forall. intros s Hs.
    apply filter_In in Hs as [_ Hs]. now apply truthy_true_iff. }
  split; [reflexivity|].
  cbv zeta. repeat split.
Qed.

Lemma includesSearch_is_substring_of_joined_fields_witness :
  let r := mkProgramRow "Bambang" "CAS" "BS Biology" "" "Undergraduate"
             "Issued" "041" "" "Level II" "CMO 49" "BOR 12" "Dela Cruz" in
  includesSearch r "   " = true /\ includesSearch r " gy | 041 | CMO " = true.
Proof.
  cbv zeta.
  destruct includesSearch_is_substring_of_joined_fields as [Hblank [Hocc _]].
  split; [apply Hblank; reflexivity|].
  apply Hocc; [discriminate|].
  exists "bs biolo", " 49 | bor 12 | cas | undergraduate | issued | level ii | dela cruz".
  reflexivity.
Defined.

Section Monotone.

Lemma keepRow_true_iff (f : FilterState) (r : DerivedRow) :
  keepRow f r = true <->
  matchesMulti (colleges f) (College r) = true
  /\ matchesMulti (levels f) (Level r) = true
  /\ matchesMulti (copcStatuses f) (COPC_Status r) = true
  /\ matchesMulti (accreditations f) (AccreditationNormalized r) = true
  /\ matchesMulti (deans f) (Dean r) = true
  /\ (hideBlankMajor f = true -> truthy (trim (Major r)) = true)
  /\ includesSearch r (search f) = true.
Proof.
  unfold keepRow.
  destruct (matchesMulti (colleges f) (College r));
    [|cbn; intuition congruence].
  destruct (matchesMulti (levels f) (Level r));
    [|cbn; intuition congruence].
  destruct (matchesMulti (copcStatuses f) (COPC_Status r));
    [|cbn; intuition congruence].
  destruct (matchesMulti (accreditations f) (AccreditationNormalized r));
    [|cbn; intuition congruence].
  destruct (matchesMulti (deans f) (Dean r));
    [|cbn; intuition congruence].
  destruct (hideBlankMajor f), (truthy (trim (Major r))),
    (includesSearch r (search f)); cbn; intuition congruence.
Qed.

Lemma matchesMulti_nil (value : string) : matchesMulti [] value = true.
Proof. reflexivity. Qed.

Lemma matchesMulti_cons_iff (selected : list string) (value : string) :
  selected <> [] ->
  (matchesMulti selected value = true <-> In value selected).
Proof.
  intros H. unfold matchesMulti.
  destruct selected as [|x l]; [congruence|].
  cbn [length Nat.eqb]. apply arrayIncludes_iff.
Qed.

Lemma matchesMulti_narrow (old new : list string) (value : string) :
  new <> [] -> old = [] \/ incl new old ->
  matchesMulti new value = true -> matchesMulti old value = true.
Proof.
  intros Hnew [-> | Hincl] H; [reflexivity|].
  apply (matchesMulti_cons_iff new value Hnew) in H.
  destruct old as [|x old]; [reflexivity|].
  apply matchesMulti_cons_iff; [discriminate | exact (Hincl _ H)].
Qed.

Lemma includesSearch_lengthen (r : ProgramRow) (q q' : string) :
  Occurs (toLowerCase (trim q)) (toLowerCase (trim q')) ->
  includesSearch r q' = true -> includesSearch r q = true.
Proof.
  intros Hocc H.
  destruct (trim q) as [|c t] eqn:Hq; [now apply includesSearch_blank|].
  assert (Hq' : trim q' <> EmptyString).
  { intros E. rewrite E in Hocc. destruct Hocc as [[|? ?] [post Hp]]; discriminate. }
  apply (includesSearch_occurs r q' Hq') in H.
  apply includesSearch_occurs; [congruence|].
  rewrite Hq. exact (Occurs_trans _ _ _ Hocc H).
Qed.

Lemma addConstraint_keepRow (f f' : FilterState) (r : DerivedRow) :
  addConstraint f f' -> keepRow f' r = true -> keepRow f r = true.
Proof.
  intros Hadd. rewrite !keepRow_true_iff.
  destruct Hadd as [d s Hold Hs Hincl | d s Hold Hs | | q Hocc].
  - destruct d; cbn; intuition eauto using matchesMulti_narrow.
  - destruct d; cbn in *; rewrite Hold; intuition.
  - cbn. intuition.
  - cbn. intuition eauto using includesSearch_lengthen.
Qed.

Lemma filter_narrower {A : Type} (p p' : A -> bool) (l : list A) :
  (forall x, p' x = true -> p x = true) ->
  filter p' l = filter p' (filter p l).
Proof.
  intros H. induction l as [|x l IH]; [reflexivity|].
  cbn [filter]. destruct (p x) eqn:Ep.
  - cbn [filter]. destruct (p' x); [now rewrite IH | exact IH].
  - destruct (p' x) eqn:Ep'; [|exact IH].
    apply H in Ep'. congruence.
Qed.

Lemma filter_length_le' {A : Type} (p : A -> bool) (l : list A) :
  length (filter p l) <= length l.
Proof.
  induction l as [|x l IH]; [constructor|].
  cbn [filter]. destruct (p x); cbn [length]; lia.
Qed.

(** C3, as the code has it.  With the five selection sets empty, a blank
    search string and blank majors not hidden, the filter gives back the
    list it was given, in the same order. *)
Theorem filteredRows_identity (rows : list DerivedRow) (f : FilterState) :
  colleges f = [] -> levels f = [] -> copcStatuses f = [] ->
  accreditations f = [] -> deans f = [] ->
  trim (search f) = EmptyString ->
  hideBlankMajor f = false ->
  filteredRows rows f = rows.
Proof.
  intros Hc Hl Hs Ha Hd Hq Hh. unfold filteredRows.
  induction rows as [|r rows IH]; [reflexivity|].
  cbn [filter].
  assert (Hk : keepRow f r = true).
  { apply keepRow_true_iff. rewrite Hc, Hl, Hs, Ha, Hd, Hh.
    repeat split; try reflexivity; [discriminate|].
    now apply includesSearch_blank. }
  now rewrite Hk, IH.
Qed.

Lemma filteredRows_identity_witness :
  let rows := rowsWithDerived
    [ mkProgramRow "Bambang" "CAS" "BS Biology" "" "Undergraduate" "Issued"
        "041" "" "Level II" "CMO 49" "BOR 12" "Dela Cruz";
      mkProgramRow "Bambang" "CTE" "BSEd" "English" "Undergraduate"
        "Under Application" "" "" "" "" "" "Santos" ] in
  filteredRows rows DEFAULT_FILTERS = rows
  /\ filteredRows rows (withSearch "  " DEFAULT_FILTERS) = rows.
Proof.
  cbv zeta. split; apply filteredRows_identity; reflexivity.
Defined.

(** C3 as stated fails: with the five sets empty and a blank search, a
    filter that hides blank majors drops a record without a major. *)
Lemma filteredRows_hideBlankMajor_not_identity :
  let rows := rowsWithDerived
    [ mkProgramRow "Bambang" "CAS" "BS Biology" "" "Undergraduate" "Issued"
        "041" "" "Level II" "CMO 49" "BOR 12" "Dela Cruz" ] in
  let f := withHideBlankMajor true DEFAULT_FILTERS in
  colleges f = [] /\ levels f = [] /\ copcStatuses f = []
  /\ accreditations f = [] /\ deans f = [] /\ search f = EmptyString
  /\ filteredRows rows f = []
  /\ filteredRows rows f <> rows.
Proof. cbv zeta. repeat split. vm_compute. discriminate. Qed.

(** C4, as the code has it.  Filtering is monotonic: after one additional
    constraint on the filter state (a non-empty selection shrunk to a
    smaller one that is still non-empty, a selection started on a
    dimension that had none, blank majors hidden, or the search text grown
    around the former one) the result is the former result filtered once
    more: every record of it is in the former result, in the same order,
    and it is not longer. *)
Theorem filteredRows_monotonic
  (rows : list DerivedRow) (f f' : FilterState) :
  addConstraint f f' ->
  filteredRows rows f' = filter (keepRow f') (filteredRows rows f)
  /\ incl (filteredRows rows f') (filteredRows rows f)
  /\ length (filteredRows rows f') <= length (filteredRows rows f).
Proof.
  intros Hadd.
  assert (Heq : filteredRows rows f' = filter (keepRow f') (filteredRows rows f)).
  { unfold filteredRows. apply filter_narrower.
    intros r. now apply addConstraint_keepRow. }
  split; [exact Heq|]. split.
  - rewrite Heq. intros r Hr. now apply filter_In in Hr as [Hr _].
  - rewrite Heq. apply filter_length_le'.
Qed.

Lemma filteredRows_monotonic_witness :
  let rows := rowsWithDerived
    [ mkProgramRow "Bambang" "CAS" "BS Biology" "" "Undergraduate" "Issued"
        "041" "" "Level II" "CMO 49" "BOR 12" "Dela Cruz";
      mkProgramRow "Bambang" "CTE" "BSEd" "English" "Undergraduate"
        "Under Application" "" "" "" "" "" "Santos" ] in
  let f := withSelection ByCollege ["CAS"; "CTE"] DEFAULT_FILTERS in
  length (filteredRows rows (withSelection ByCollege ["CTE"] f))
    <= length (filteredRows rows f)
  /\ length (filteredRows rows (withSelection ByDean ["Santos"] f))
       <= length (filteredRows rows f)
  /\ length (filteredRows rows (withHideBlankMajor true f))
       <= length (filteredRows rows f)
  /\ length (filteredRows rows (withSearch "bio" f))
       <= length (filteredRows rows f).
Proof.
  cbv zeta. repeat split.
  - apply filteredRows_monotonic.
    apply shrinkSelection; [discriminate | discriminate|].
    intros x [<- | []]. right. now left.
  - apply filteredRows_monotonic.
    apply startSelection; [reflexivity | discriminate].
  - apply filteredRows_monotonic. apply hideBlankMajors.
  - apply filteredRows_monotonic. apply lengthenSearch.
    exists EmptyString, "bio". reflexivity.
Defined.

(** C4 as stated fails: shrinking a non-empty selection to the empty one
    lifts the constraint, and the result grows. *)
Lemma filteredRows_cleared_selection_grows :
  let rows := rowsWithDerived
    [ mkProgramRow "Bambang" "CAS" "BS Biology" "" "Undergraduate" "Issued"
        "041" "" "Level II" "CMO 49" "BOR 12" "Dela Cruz";
      mkProgramRow "Bambang" "CTE" "BSEd" "English" "Undergraduate"
        "Under Application" "" "" "" "" "" "Santos" ] in
  let f := withSelection ByCollege ["CAS"] DEFAULT_FILTERS in
  let f' := withSelection ByCollege [] f in
  selection ByCollege f <> []
  /\ incl (selection ByCollege f') (selection ByCollege f)
  /\ length (selection ByCollege f') < length (selection ByCollege f)
  /\ length (filteredRows rows f) = 1
  /\ length (filteredRows rows f') = 2
  /\ ~ incl (filteredRows rows f') (filteredRows rows f).
Proof.
  cbv zeta. split; [discriminate|]. split; [intros x []|].
  split; [cbn; lia|]. split; [reflexivity|]. split; [reflexivity|].
  intros H.
  assert (Hin : In (mkDerivedRow
                      (mkProgramRow "Bambang" "CTE" "BSEd" "English"
                         "Undergraduate" "Under Application" "" "" "" "" ""
                         "Santos") "Unknown")
                   [mkDerivedRow
                      (mkProgramRow "Bambang" "CAS" "BS Biology" ""
                         "Undergraduate" "Issued" "041" "" "Level II" "CMO 49"
                         "BOR 12" "Dela Cruz") "Level II"]).
  { apply H. right. left. reflexivity. }
  destruct Hin as [Hin | []]. discriminate Hin.
Qed.

End Monotone.

End FilterEngine.

(* ================================================================== *)
(** ** The KPI summary *)
(* ================================================================== *)

Section KpiSummary.

Lemma CountOf_filter {A : Type} (P : A -> Prop) (p : A -> bool) (l : list A) :
  (forall x, p x = true <-> P x) -> CountOf P l (length (filter p l)).
Proof.
  intros H. induction l as [|x l IH]; [constructor|].
  cbn [filter]. destruct (p x) eqn:E.
  - apply CountOf_hit; [now apply H | exact IH].
  - apply CountOf_miss; [|exact IH].
    intros HP. apply H in HP. congruence.
Qed.

Lemma CountOf_unique {A : Type} (P : A -> Prop) (l : list A) (n m : nat) :
  CountOf P l n -> CountOf P l m -> n = m.
Proof.
  intros Hn. revert m. induction Hn as [|x l n Hx _ IH|x l n Hx _ IH];
    intros m Hm; inversion Hm; subst; try contradiction; auto.
Qed.

Lemma CountOf_iff {A : Type} (P : A -> Prop) (p : A -> bool) (l : list A) :
  (forall x, p x = true <-> P x) ->
  forall n, CountOf P l n <-> n = length (filter p l).
Proof.
  intros H n. split.
  - intros Hn. exact (CountOf_unique P l _ _ Hn (CountOf_filter P p l H)).
  - intros ->. now apply CountOf_filter.
Qed.

Lemma DistinctCount_unique (P : string -> Prop) (n m : nat) :
  DistinctCount P n -> DistinctCount P m -> n = m.
Proof.
  intros [l [Hl [HP <-]]] [l' [Hl' [HP' <-]]].
  apply Permutation_length, NoDup_Permutation; try assumption.
  intros c. now rewrite HP, HP'.
Qed.

Lemma kpis_colleges_distinct (rows : list DerivedRow) :
  DistinctCount (isCollegeOf rows) (Kpis.colleges (kpis rows)).
Proof.
  exists (setFromArray
            (filter truthy (map (fun r : DerivedRow => College r) rows))).
  split; [apply setFromArray_NoDup|]. split; [|reflexivity].
  intros c. rewrite setFromArray_In, filter_In, in_map_iff, truthy_true_iff.
  unfold isCollegeOf. split.
  - intros [[r [Hc Hr]] Hne]. split; [assumption | now exists r].
  - intros [Hne [r [Hr Hc]]]. split; [now exists r | assumption].
Qed.

(** C6.  The KPI summary of a record list: total is its length; issued
    and underApp count the records whose COPC Status, lowercased, is
    exactly issued, resp. under application; phaseOut counts those whose
    lowercased COPC Status contains phase-out (so Voluntary Phase-Out and
    phase-out (pending) count and Phased does not); colleges is the number
    of distinct non-empty College values. *)
Theorem kpis_counts :
  (forall rows : list DerivedRow,
     Kpis.total (kpis rows) = length rows
     /\ (forall n,
           CountOf (fun r : DerivedRow => toLowerCase (COPC_Status r) = "issued")
             rows n
           <-> n = Kpis.issued (kpis rows))
     /\ (forall n,
           CountOf (fun r : DerivedRow =>
                      toLowerCase (COPC_Status r) = "under application") rows n
           <-> n = Kpis.underApp (kpis rows))
     /\ (forall n,
           CountOf (fun r : DerivedRow =>
                      Occurs "phase-out" (toLowerCase (COPC_Status r))) rows n
           <-> n = Kpis.phaseOut (kpis rows))
     /\ (forall n,
           DistinctCount (isCollegeOf rows) n <-> n = Kpis.colleges (kpis rows)))
  /\ (let withStatus s :=
        mkDerivedRow (mkProgramRow "Bambang" "CAS" "P" "" "" s "" "" "" "" "" "")
                     "Unknown" in
      Kpis.phaseOut (kpis [withStatus "Voluntary Phase-Out"]) = 1
      /\ Kpis.phaseOut (kpis [withStatus "phase-out (pending)"]) = 1
      /\ Kpis.phaseOut (kpis [withStatus "Phased"]) = 0
      /\ Kpis.issued (kpis [withStatus "ISSUED"; withStatus "Issued (old)"]) = 1).
Proof.
  split; [|cbv zeta; repeat split].
  intros rows. split; [reflexivity|].
  split; [apply CountOf_iff; intros r; apply String.eqb_eq|].
  split; [apply CountOf_iff; intros r; apply String.eqb_eq|].
  split; [apply CountOf_iff; intros r; apply includes_iff|].
  intros n. split.
  - intros H. exact (DistinctCount_unique _ _ _ H (kpis_colleges_distinct rows)).
  - intros ->. apply kpis_colleges_distinct.
Qed.

End KpiSummary.

(* ================================================================== *)
(** ** Ingestion: header validation and the campus restriction *)
(* ================================================================== *)

Section Ingestion.

Lemma join_occurs (sep x : string) (l : list string) :
  In x l -> Occurs x (join sep l).
Proof.
  unfold join. induction l as [|y l IH]; intros H; [contradiction|].
  destruct l as [|z l].
  - destruct H as [-> | []]. apply Occurs_refl.
  - change (String.concat sep (y :: z :: l))
      with (y ++ sep ++ String.concat sep (z :: l))%string.
    destruct H as [-> | H].
    + apply Occurs_app_l, Occurs_refl.
    + apply Occurs_app_r, Occurs_app_r, IH, H.
Qed.

(** The expected columns the header row lacks, in the expected order. *)
Lemma missing_In (headers : list string) (h : string) :
  In h (filter (fun h => negb (arrayIncludes (map trim headers) h))
          EXPECTED_HEADERS)
  <-> In h EXPECTED_HEADERS /\ ~ In h (map trim headers).
Proof.
  rewrite filter_In, negb_true_iff, arrayIncludes_false_iff. reflexivity.
Qed.

Lemma validateHeaders_cases (headers : list string) :
  let missing :=
    filter (fun h => negb (arrayIncludes (map trim headers) h))
      EXPECTED_HEADERS in
  (missing = [] /\ validateHeaders headers = None)
  \/ (missing <> [] /\
      validateHeaders headers
      = Some ("Missing expected columns: " ++ join ", " missing)%string).
Proof.
  cbv zeta. unfold validateHeaders.
  destruct (filter _ EXPECTED_HEADERS) as [|m ms].
  - left. split; reflexivity.
  - right. split; [discriminate | reflexivity].
Qed.

Lemma validateHeaders_None_iff (headers : list string) :
  validateHeaders headers = None <->
  (forall h, In h EXPECTED_HEADERS -> In h (map trim headers)).
Proof.
  destruct (validateHeaders_cases headers) as [[Hm Hv] | [Hm Hv]];
    cbv zeta in *; rewrite Hv.
  - split; [intros _ | reflexivity].
    intros h Hh.
    destruct (in_dec string_dec h (map trim headers)) as [Hin | Hout];
      [assumption|].
    assert (Hmiss : In h []) by (rewrite <- Hm; apply missing_In; now split).
    contradiction.
  - split; [discriminate|].
    intros Hall. exfalso. apply Hm.
    destruct (filter _ EXPECTED_HEADERS) as [|m ms] eqn:E; [reflexivity|].
    assert (Hin : In m (m :: ms)) by now left.
    rewrite <- E in Hin. apply missing_In in Hin as [Hexp Hout].
    elim Hout. now apply Hall.
Qed.

Lemma validateHeaders_Some (headers : list string) (h : string) :
  In h EXPECTED_HEADERS -> ~ In h (map trim headers) ->
  exists missing,
    validateHeaders headers
    = Some ("Missing expected columns: " ++ join ", " missing)%string
    /\ (forall x, In x missing <->
                  In x EXPECTED_HEADERS /\ ~ In x (map trim headers))
    /\ (forall x, In x missing ->
                  Occurs x ("Missing expected columns: " ++ join ", " missing)).
Proof.
  intros Hexp Hout.
  destruct (validateHeaders_cases headers) as [[Hm Hv] | [Hm Hv]];
    cbv zeta in *.
  - assert (Hin : In h []) by (rewrite <- Hm; apply missing_In; now split).
    contradiction.
  - eexists. split; [exact Hv|]. split; [intros x; apply missing_In|].
    intros x Hx. now apply Occurs_app_r, join_occurs.
Qed.

Lemma parse_with_rows (wb : WorkBook) (name : string) (first : RawRow)
  (rest : list RawRow) :
  nth_error (SheetNames wb) 0 = Some name -> name <> EmptyString ->
  sheetByName (Sheets wb) name = Some (first :: rest) ->
  parseXlsxFirstSheet (Parsed wb)
  = match validateHeaders (objectKeys first) with
    | Some headerErr => Rejected headerErr
    | None => Resolved (map toProgramRow (first :: rest))
    end.
Proof.
  intros Hname Hne Hws. unfold parseXlsxFirstSheet.
  rewrite Hname. apply truthy_true_iff in Hne. rewrite Hne. cbn [negb].
  now rewrite Hws.
Qed.

(** C8, as the code has it.  Header validation succeeds exactly when each
    of the twelve expected column names is among the trimmed observed
    headers, whatever their order and whatever other columns there are.
    When some are absent, the validation answers the message that lists
    every absent expected column, and ingestion of a sheet that has at
    least one data row is rejected with that message; headers without
    Dean give a message in which Dean occurs. *)
Theorem validateHeaders_missing_columns :
  EXPECTED_HEADERS
  = [ "Campus"; "College"; "Program"; "Major"; "Level"; "COPC Status";
      "COPC No."; "Contents Notation"; "Accreditation"; "CMO / PSG";
      "BOR Resolution"; "Dean" ]
  /\ (forall headers,
        validateHeaders headers = None <->
        (forall h, In h EXPECTED_HEADERS -> In h (map trim headers)))
  /\ (forall headers h,
        In h EXPECTED_HEADERS -> ~ In h (map trim headers) ->
        exists missing,
          validateHeaders headers
          = Some ("Missing expected columns: " ++ join ", " missing)%string
          /\ (forall x, In x missing <->
                        In x EXPECTED_HEADERS /\ ~ In x (map trim headers))
          /\ (forall x, In x missing ->
                Occurs x ("Missing expected columns: " ++ join ", " missing)))
  /\ (forall wb name first rest,
        nth_error (SheetNames wb) 0 = Some name -> name <> EmptyString ->
        sheetByName (Sheets wb) name = Some (first :: rest) ->
        parseXlsxFirstSheet (Parsed wb)
        = match validateHeaders (objectKeys first) with
          | Some headerErr => Rejected headerErr
          | None => Resolved (map toProgramRow (first :: rest))
          end)
  /\ (forall headers,
        ~ In "Dean" (map trim headers) ->
        exists message,
          validateHeaders headers = Some message /\ Occurs "Dean" message).
Proof.
  split; [reflexivity|].
  split; [exact validateHeaders_None_iff|].
  split; [exact validateHeaders_Some|].
  split; [exact parse_with_rows|].
  intros headers Hout.
  destruct (validateHeaders_Some headers "Dean") as [missing [Hv [Hm Hocc]]];
    [simpl; tauto | exact Hout|].
  eexists. split; [exact Hv|].
  apply Hocc, Hm. split; [simpl; tauto | exact Hout].
Qed.

Lemma validateHeaders_missing_columns_witness :
  validateHeaders
    [ " Dean "; "Remarks"; "BOR Resolution"; "CMO / PSG"; "Accreditation";
      "Contents Notation"; "COPC No."; "COPC Status"; "Level"; "Major";
      "Program"; "College"; "Campus" ] = None
  /\ (exists missing,
        validateHeaders ["Campus"; "College"; "Program"; "Major"; "Level"]
        = Some ("Missing expected columns: " ++ join ", " missing)%string
        /\ In "COPC No." missing /\ In "Dean" missing)
  /\ (exists message,
        validateHeaders (objectKeys (removelast (sampleRawRow "Bambang")))
        = Some message /\ Occurs "Dean" message)
  /\ parseXlsxFirstSheet (oneSheet [removelast (sampleRawRow "Bambang")])
     = Rejected "Missing expected columns: Dean".
Proof.
  destruct validateHeaders_missing_columns
    as [_ [Hnone [Hsome [Hparse Hdean]]]].
  split.
  { apply Hnone. intros h Hh. simpl in Hh.
    repeat (destruct Hh as [<- | Hh]; [simpl; tauto|]). contradiction. }
  split.
  { destruct (Hsome ["Campus"; "College"; "Program"; "Major"; "Level"] "Dean")
      as [missing [Hv [Hm _]]].
    - simpl; tauto.
    - simpl. intros H. repeat (destruct H as [H | H]; [discriminate|]). exact H.
    - exists missing. split; [exact Hv|].
      split; apply Hm; (split; [simpl; tauto|]); simpl; intros H;
        repeat (destruct H as [H | H]; [discriminate|]); exact H. }
  split.
  { apply Hdean. simpl. intros H.
    repeat (destruct H as [H | H]; [discriminate|]). exact H. }
  unfold oneSheet.
  rewrite (Hparse _ "Sheet1" (removelast (sampleRawRow "Bambang")) []);
    [reflexivity | reflexivity | discriminate | reflexivity].
Defined.

(** C8 as stated fails: a sheet without data rows gives no row object,
    whatever its header row lacks, and its ingestion resolves although the
    validation of the headers observed (none) would not pass. *)
Lemma parseXlsxFirstSheet_missing_columns_unnoticed :
  sheet_to_json (Some []) = []
  /\ parseXlsxFirstSheet (oneSheet []) = Resolved []
  /\ (exists message,
        validateHeaders [] = Some message /\ Occurs "Dean" message).
Proof.
  split; [reflexivity|]. split; [reflexivity|].
  eexists. split; [reflexivity|].
  exists "Missing expected columns: Campus, College, Program, Major, Level, COPC Status, COPC No., Contents Notation, Accreditation, CMO / PSG, BOR Resolution, ", "".
  reflexivity.
Qed.

(** C10.  A first sheet without data rows resolves with the empty record
    list, whatever its columns: header validation is not run.  A workbook
    is rejected for missing columns only when its first sheet has a data
    row, and the message is then the validation of that row's keys. *)
Theorem parseXlsxFirstSheet_no_rows_no_validation :
  (forall wb name,
     nth_error (SheetNames wb) 0 = Some name -> name <> EmptyString ->
     sheet_to_json (sheetByName (Sheets wb) name) = [] ->
     parseXlsxFirstSheet (Parsed wb) = Resolved [])
  /\ (forall wb message,
        parseXlsxFirstSheet (Parsed wb) = Rejected message ->
        message <> "No sheets found in the workbook." ->
        exists name first rest,
          nth_error (SheetNames wb) 0 = Some name
          /\ sheet_to_json (sheetByName (Sheets wb) name) = first :: rest
          /\ validateHeaders (objectKeys first) = Some message)
  /\ (forall wb headers message,
        validateHeaders headers = Some message ->
        parseXlsxFirstSheet (Parsed wb) = Rejected message ->
        exists name first rest,
          nth_error (SheetNames wb) 0 = Some name
          /\ sheet_to_json (sheetByName (Sheets wb) name) = first :: rest).
Proof.
  assert (Hrej : forall wb message,
             parseXlsxFirstSheet (Parsed wb) = Rejected message ->
             message <> "No sheets found in the workbook." ->
             exists name first rest,
               nth_error (SheetNames wb) 0 = Some name
               /\ sheet_to_json (sheetByName (Sheets wb) name) = first :: rest
               /\ validateHeaders (objectKeys first) = Some message).
  { intros wb message H Hmsg. unfold parseXlsxFirstSheet in H.
    destruct (nth_error (SheetNames wb) 0) as [name|]; [|congruence].
    destruct (truthy name); cbn [negb] in H; [|congruence].
    destruct (sheet_to_json (sheetByName (Sheets wb) name))
      as [|first rest] eqn:Hrows; [discriminate|].
    destruct (validateHeaders (objectKeys first)) as [e|] eqn:Hv;
      [|discriminate].
    injection H as ->. now exists name, first, rest. }
  split.
  { intros wb name Hname Hne Hrows. unfold parseXlsxFirstSheet.
    rewrite Hname. apply truthy_true_iff in Hne. rewrite Hne. cbn [negb].
    now rewrite Hrows. }
  split; [exact Hrej|].
  intros wb headers message Hv H.
  destruct (Hrej wb message H) as [name [first [rest [Hn [Hr _]]]]].
  - intros ->. unfold validateHeaders in Hv.
    destruct (negb _) in Hv; [|discriminate].
    injection Hv as Hv. discriminate.
  - now exists name, first, rest.
Qed.

Lemma parseXlsxFirstSheet_no_rows_no_validation_witness :
  parseXlsxFirstSheet (oneSheet []) = Resolved []
  /\ (exists name first rest,
        nth_error ["Sheet1"] 0 = Some name
        /\ sheet_to_json
             (sheetByName [("Sheet1", [removelast (sampleRawRow "Bambang")])]
                name)
           = first :: rest).
Proof.
  destruct parseXlsxFirstSheet_no_rows_no_validation as [Hempty [_ Hreach]].
  split.
  - apply (Hempty _ "Sheet1"); [reflexivity | discriminate | reflexivity].
  - apply (Hreach
             {| SheetNames := ["Sheet1"];
                Sheets := [("Sheet1", [removelast (sampleRawRow "Bambang")])] |}
             (objectKeys (removelast (sampleRawRow "Bambang")))
             "Missing expected columns: Dean"); reflexivity.
Defined.

(** *** The campus restriction *)

Lemma isBambang_iff (r : ProgramRow) :
  isBambang r = true <-> equalIgnoringCase (trim (Campus r)) "Bambang".
Proof. unfold isBambang, equalIgnoringCase. apply String.eqb_eq. Qed.

Lemma filter_length_split {A : Type} (p : A -> bool) (l : list A) :
  length l = length (filter p l) + length (filter (fun x => negb (p x)) l).
Proof.
  induction l as [|x l IH]; [reflexivity|].
  cbn [filter]. destruct (p x); cbn [negb length]; lia.
Qed.

(** C7.  After an ingestion that resolves, the loaded data keep all
    parsed rows, the target-campus rows are exactly the parsed rows whose
    Campus, trimmed, equals Bambang up to letter case, in their order,
    and the removed count is the number of parsed rows minus the number
    of retained ones, which is the number of rows of another campus.
    BAMBANG, bambang followed by a space and Bambang are retained, Solano
    is not. *)
Theorem onFileSelected_campus_restriction :
  (forall st file rows,
     parseXlsxFirstSheet file = Resolved rows ->
     exists data,
       loaded (onFileSelected st (Some file)) = Some data
       /\ raw data = rows
       /\ bambang data = filter isBambang rows
       /\ (forall r, In r (bambang data) <->
                     In r rows
                     /\ equalIgnoringCase (trim (Campus r)) "Bambang")
       /\ removedNonBambangCount data
          = (Z.of_nat (length rows) - Z.of_nat (length (bambang data)))%Z
       /\ (forall n,
             CountOf (fun r =>
                        ~ equalIgnoringCase (trim (Campus r)) "Bambang") rows n
             <-> Z.of_nat n = removedNonBambangCount data))
  /\ (let withCampus c := toProgramRow (sampleRawRow c) in
      isBambang (withCampus "BAMBANG") = true
      /\ isBambang (withCampus "bambang ") = true
      /\ isBambang (withCampus "Bambang") = true
      /\ isBambang (withCampus "Solano") = false)
  /\ (let st :=
        onFileSelected initialState
          (Some (oneSheet [ sampleRawRow "BAMBANG"; sampleRawRow "Solano";
                            sampleRawRow "bambang "; sampleRawRow "Bambang" ])) in
      option_map (fun d => map Campus (bambang d)) (loaded st)
      = Some ["BAMBANG"; "bambang"; "Bambang"]
      /\ option_map removedNonBambangCount (loaded st) = Some 1%Z
      /\ option_map (fun d => length (raw d)) (loaded st) = Some 4).
Proof.
  split; [|split; cbv zeta; repeat split].
  intros st file rows Hparse.
  unfold onFileSelected. rewrite Hparse. eexists. split; [reflexivity|].
  cbn [raw bambang removedNonBambangCount].
  split; [reflexivity|]. split; [reflexivity|].
  split.
  { intros r. rewrite filter_In, isBambang_iff. reflexivity. }
  split; [reflexivity|].
  intros n.
  rewrite (CountOf_iff _ (fun r => negb (isBambang r))).
  - pose proof (filter_length_split isBambang rows) as Hlen.
    split; [intros ->; lia | intros H; lia].
  - intros r. rewrite negb_true_iff, <- isBambang_iff.
    destruct (isBambang r); split; congruence.
Qed.

Lemma onFileSelected_campus_restriction_witness :
  exists data,
    loaded (onFileSelected initialState
              (Some (oneSheet [sampleRawRow "Solano"; sampleRawRow " BamBang"])))
    = Some data
    /\ map Campus (bambang data) = ["BamBang"]
    /\ removedNonBambangCount data = 1%Z.
Proof.
  destruct onFileSelected_campus_restriction as [H _].
  destruct (H initialState
              (oneSheet [sampleRawRow "Solano"; sampleRawRow " BamBang"])
              (map toProgramRow [sampleRawRow "Solano"; sampleRawRow " BamBang"])
              eq_refl)
    as [data [Hl [Hraw [Hb [_ [Hrem _]]]]]].
  exists data. split; [exact Hl|].
  rewrite Hrem, Hb. split; reflexivity.
Defined.

End Ingestion.

(* ================================================================== *)
(** ** The CSV export and its reading back *)
(* ================================================================== *)

Section CsvEscaping.

Lemma includes_str (c : ascii) (v : string) : includes v (str c) = hasChar c v.
Proof.
  induction v as [|a v IH]; [reflexivity|].
  cbn [includes hasChar]. rewrite IH. f_equal.
  cbn. apply andb_true_r.
Qed.

Lemma hasChar_iff (c : ascii) (v : string) : hasChar c v = true <-> InStr c v.
Proof.
  induction v as [|a v IH]; simpl; [split; [discriminate | contradiction]|].
  rewrite orb_true_iff, Ascii.eqb_eq, IH. intuition.
Qed.

Lemma replaceAll_doubleQuotes (v : string) :
  replaceAllChar DQUOTE (String DQUOTE (str DQUOTE)) v = doubleQuotes v.
Proof.
  induction v as [|a v IH]; [reflexivity|].
  cbn [replaceAllChar doubleQuotes]. rewrite IH.
  destruct (Ascii.eqb a DQUOTE); reflexivity.
Qed.

Lemma csvEscape_cases (v : string) :
  csvEscape v
  = if needsQuotes v
    then String DQUOTE (doubleQuotes v ++ str DQUOTE)
    else v.
Proof.
  unfold csvEscape, needsQuotes. rewrite !includes_str, replaceAll_doubleQuotes.
  reflexivity.
Qed.

End CsvEscaping.

Section CsvReading.

Lemma pushChars_empty (recs : list (list string)) :
  pushChars EmptyString recs = recs.
Proof. destruct recs as [|[|f fs] rs]; reflexivity. Qed.

Lemma pushChars_pushChars (a b : string) (recs : list (list string)) :
  pushChars a (pushChars b recs) = pushChars (a ++ b) recs.
Proof.
  destruct recs as [|[|f fs] rs]; try reflexivity.
  cbn [pushChars]. now rewrite sapp_assoc.
Qed.

Lemma startsWithChar_true (c : ascii) (r : string) :
  startsWithChar c r = true -> exists r', r = String c r'.
Proof.
  destruct r as [|d r']; [discriminate|]. cbn.
  intros H. apply Ascii.eqb_eq in H. subst. now exists r'.
Qed.

(** At the end of a field the reader is in the same situation whether the
    field was empty, unquoted or quoted. *)
Lemma readCsv_fieldEnd (st : CsvState) (r : string) :
  st <> Quoted -> fieldEnd r -> readCsv st r = readCsv FieldStart r.
Proof.
  intros Hst [-> | [H | H]]; [reflexivity| |];
    apply startsWithChar_true in H as [r' ->];
    destruct st; try congruence; reflexivity.
Qed.

Lemma readCsv_plain_char (st : CsvState) (c : ascii) (s : string) :
  st = FieldStart \/ st = Unquoted ->
  Ascii.eqb COMMA c = false -> Ascii.eqb DQUOTE c = false ->
  Ascii.eqb LF c = false ->
  (Ascii.eqb c CR && startsWithChar LF s = false) ->
  readCsv st (String c s) = pushChars (str c) (readCsv Unquoted s).
Proof.
  intros Hst Hc Hq Hl Hcr.
  rewrite Ascii.eqb_sym in Hc, Hq, Hl.
  destruct Hst as [-> | ->]; cbn [readCsv]; now rewrite Hc, Hl, Hcr, Hq.
Qed.

Lemma readCsv_unquoted (v r : string) (st : CsvState) :
  st = FieldStart \/ st = Unquoted ->
  needsQuotes v = false -> fieldEnd r ->
  (startsWithChar LF r = true -> endsWithChar CR v = false) ->
  readCsv st (v ++ r) = pushChars v (readCsv FieldStart r).
Proof.
  revert st; induction v as [|c v IH]; intros st Hst Hplain Hend Hcr.
  - cbn [append]. rewrite pushChars_empty. apply readCsv_fieldEnd; [|exact Hend].
    destruct Hst as [-> | ->]; discriminate.
  - unfold needsQuotes in Hplain. cbn [hasChar] in Hplain.
    apply orb_false_iff in Hplain as [Hplain Hl].
    apply orb_false_iff in Hplain as [Hc Hq].
    apply orb_false_iff in Hc as [Hc Hcv].
    apply orb_false_iff in Hq as [Hq Hqv].
    apply orb_false_iff in Hl as [Hl Hlv].
    cbn [append].
    rewrite (readCsv_plain_char st c (v ++ r) Hst Hc Hq Hl).
    + rewrite (IH Unquoted); [apply pushChars_pushChars | now right | |exact Hend|].
      * unfold needsQuotes. now rewrite Hcv, Hqv, Hlv.
      * intros HLF. specialize (Hcr HLF). destruct v; [reflexivity | exact Hcr].
    + destruct (Ascii.eqb c CR) eqn:Ecr; [|reflexivity]. cbn [andb].
      destruct v as [|d v].
      * cbn [append]. destruct (startsWithChar LF r) eqn:E; [|reflexivity].
        specialize (Hcr eq_refl). cbn in Hcr. congruence.
      * cbn. cbn [hasChar] in Hlv. apply orb_false_iff in Hlv as [Hd _].
        now rewrite Ascii.eqb_sym.
Qed.

Lemma readCsv_quoted (v r : string) :
  fieldEnd r ->
  readCsv Quoted (doubleQuotes v ++ str DQUOTE ++ r)
  = pushChars v (readCsv FieldStart r).
Proof.
  intros Hend. induction v as [|c v IH].
  - cbn [doubleQuotes append str readCsv]. rewrite Ascii.eqb_refl.
    rewrite pushChars_empty. apply readCsv_fieldEnd; [discriminate | exact Hend].
  - cbn [doubleQuotes]. destruct (Ascii.eqb c DQUOTE) eqn:E.
    + apply Ascii.eqb_eq in E; subst c.
      cbn [append readCsv]. rewrite Ascii.eqb_refl.
      change (Ascii.eqb DQUOTE COMMA) with false.
      change (Ascii.eqb DQUOTE LF) with false.
      change (Ascii.eqb DQUOTE CR) with false. cbn [andb].
      rewrite IH. apply pushChars_pushChars.
    + cbn [append readCsv]. rewrite E, IH. apply pushChars_pushChars.
Qed.

Lemma readCsv_field (v r : string) :
  fieldEnd r ->
  (startsWithChar LF r = true -> endsWithChar CR v = false) ->
  readCsv FieldStart (csvEscape v ++ r) = pushChars v (readCsv FieldStart r).
Proof.
  intros Hend Hcr. rewrite csvEscape_cases.
  destruct (needsQuotes v) eqn:E.
  - cbn [append readCsv].
    change (Ascii.eqb DQUOTE COMMA) with false.
    change (Ascii.eqb DQUOTE LF) with false.
    change (Ascii.eqb DQUOTE CR) with false. cbn [andb].
    rewrite Ascii.eqb_refl, sapp_assoc. now apply readCsv_quoted.
  - apply readCsv_unquoted; auto.
Qed.

End CsvReading.

Section CsvRoundTrip.

Lemma sapp_cons_not_empty (a b : string) (c : ascii) :
  (a ++ String c b)%string <> EmptyString.
Proof. destruct a; discriminate. Qed.

Lemma join_cons_cons (sep x y : string) (l : list string) :
  join sep (x :: y :: l) = (x ++ sep ++ join sep (y :: l))%string.
Proof. reflexivity. Qed.

Lemma csvText_cons_cons (a b : list string) (l : list (list string)) :
  csvText (a :: b :: l) = (csvLine a ++ String LF (csvText (b :: l)))%string.
Proof. reflexivity. Qed.

Lemma csvText_not_empty (a : list string) (l : list (list string)) :
  csvLine a <> EmptyString -> csvText (a :: l) <> EmptyString.
Proof.
  intros H. destruct l as [|b l]; [exact H|].
  rewrite csvText_cons_cons. apply sapp_cons_not_empty.
Qed.

Lemma downloadFilteredCsv_csvText (rows : list DerivedRow) :
  downloadFilteredCsv rows = csvText (csvHeaders :: map recordValues rows).
Proof.
  unfold downloadFilteredCsv, csvText. cbn [map]. rewrite map_map.
  reflexivity.
Qed.

(** *** Any reader that keeps to the common rules *)

Section AnyStandardReader.
Variable rd : CsvState -> string -> list (list string).
Hypothesis Hrd : StandardReader rd.

Lemma rd_fieldEnd (st : CsvState) (r : string) :
  st <> Quoted -> fieldEnd r -> rd st r = rd FieldStart r.
Proof.
  intros Hst [-> | [H | H]].
  - rewrite !(rd_end rd Hrd); [reflexivity | discriminate | exact Hst].
  - apply startsWithChar_true in H as [r' ->].
    rewrite !(rd_comma rd Hrd); [reflexivity | discriminate | exact Hst].
  - apply startsWithChar_true in H as [r' ->].
    rewrite !(rd_newline rd Hrd); [reflexivity | discriminate | exact Hst].
Qed.

Lemma hasChar_cons_false (a c : ascii) (v : string) :
  hasChar a (String c v) = false -> c <> a /\ hasChar a v = false.
Proof.
  cbn [hasChar]. intros H. apply orb_false_iff in H as [H Hv].
  split; [|exact Hv]. apply Ascii.eqb_neq in H. congruence.
Qed.

Lemma rd_unquoted (v r : string) (st : CsvState) :
  st = FieldStart \/ st = Unquoted ->
  needsQuotes v = false -> hasChar CR v = false -> fieldEnd r ->
  rd st (v ++ r) = pushChars v (rd FieldStart r).
Proof.
  revert st; induction v as [|c v IH]; intros st Hst Hplain Hcr Hend.
  - cbn [append]. rewrite pushChars_empty. apply rd_fieldEnd; [|exact Hend].
    destruct Hst as [-> | ->]; discriminate.
  - unfold needsQuotes in Hplain.
    apply orb_false_iff in Hplain as [Hplain Hl].
    apply orb_false_iff in Hplain as [Hc Hq].
    apply hasChar_cons_false in Hc as [Hc Hcv].
    apply hasChar_cons_false in Hq as [Hq Hqv].
    apply hasChar_cons_false in Hl as [Hl Hlv].
    apply hasChar_cons_false in Hcr as [Hcr Hcrv].
    cbn [append]. rewrite (rd_plain rd Hrd st c (v ++ r) Hst Hc Hq Hl Hcr).
    rewrite (IH Unquoted); [apply pushChars_pushChars | now right | | exact Hcrv
                           | exact Hend].
    unfold needsQuotes. now rewrite Hcv, Hqv, Hlv.
Qed.

Lemma rd_quoted_body (v r : string) :
  fieldEnd r ->
  rd Quoted (doubleQuotes v ++ str DQUOTE ++ r)
  = pushChars v (rd FieldStart r).
Proof.
  intros Hend. induction v as [|c v IH].
  - cbn [doubleQuotes append str]. rewrite (rd_close rd Hrd), pushChars_empty.
    apply rd_fieldEnd; [discriminate | exact Hend].
  - cbn [doubleQuotes]. destruct (Ascii.eqb c DQUOTE) eqn:E.
    + apply Ascii.eqb_eq in E; subst c. cbn [append].
      rewrite (rd_close rd Hrd), (rd_escaped rd Hrd), IH.
      apply pushChars_pushChars.
    + apply Ascii.eqb_neq in E. cbn [append].
      rewrite (rd_quoted rd Hrd c _ E), IH. apply pushChars_pushChars.
Qed.

Lemma rd_field (v r : string) :
  fieldEnd r -> quotedIfCR v ->
  rd FieldStart (csvEscape v ++ r) = pushChars v (rd FieldStart r).
Proof.
  intros Hend Hq. rewrite csvEscape_cases.
  destruct (needsQuotes v) eqn:E.
  - cbn [append]. rewrite (rd_open rd Hrd), sapp_assoc.
    now apply rd_quoted_body.
  - apply rd_unquoted; auto.
    destruct (hasChar CR v) eqn:Ecr; [|reflexivity].
    specialize (Hq Ecr). congruence.
Qed.

Lemma rd_line (fields : list string) (r : string) (recs : list (list string)) :
  fields <> [] -> Forall quotedIfCR fields ->
  r = EmptyString \/ startsWithChar LF r = true ->
  rd FieldStart r = [EmptyString] :: recs ->
  rd FieldStart (csvLine fields ++ r) = fields :: recs.
Proof.
  intros Hne Hq Hr Hrest.
  assert (Hend : fieldEnd r) by (unfold fieldEnd; tauto).
  induction fields as [|f fields IH]; [congruence|]. clear Hne.
  inversion Hq as [|? ? Hf Hfs]; subst.
  destruct fields as [|g fields].
  - unfold csvLine. cbn [map join String.concat].
    rewrite (rd_field f r Hend Hf), Hrest.
    cbn [pushChars]. now rewrite sapp_nil_r.
  - unfold csvLine in *. cbn [map]. rewrite join_cons_cons, !sapp_assoc.
    rewrite rd_field; [|right; left; reflexivity | exact Hf].
    cbn [str append]. rewrite (rd_comma rd Hrd) by discriminate.
    cbn [map] in IH. rewrite IH; [|discriminate | exact Hfs].
    cbn [newField pushChars]. now rewrite sapp_nil_r.
Qed.

Lemma rd_text (records : list (list string)) :
  records <> [] ->
  Forall (fun fs => fs <> [] /\ csvLine fs <> EmptyString
                    /\ Forall quotedIfCR fs) records ->
  rd FieldStart (csvText records) = records.
Proof.
  intros Hne Hall.
  induction records as [|a records IH]; [congruence|]. clear Hne.
  inversion Hall as [|? ? [Ha [Hline Hq]] Hrest]; subst.
  destruct records as [|b records].
  - change (csvText [a]) with (csvLine a).
    rewrite <- (sapp_nil_r (csvLine a)).
    apply rd_line; auto. apply (rd_end rd Hrd). discriminate.
  - rewrite csvText_cons_cons.
    apply rd_line; auto.
    assert (Hb : csvText (b :: records) <> EmptyString).
    { inversion Hrest as [|? ? [_ [Hbl _]] _]; subst.
      now apply csvText_not_empty. }
    rewrite (rd_newline rd Hrd) by discriminate.
    destruct (csvText (b :: records)) eqn:E; [congruence|].
    unfold newRecord. f_equal. apply IH; [discriminate | exact Hrest].
Qed.

Lemma rd_download (rows : list DerivedRow) :
  (forall r, In r rows -> Forall quotedIfCR (recordValues r)) ->
  rd FieldStart (downloadFilteredCsv rows)
  = csvHeaders :: map recordValues rows.
Proof.
  intros H. rewrite downloadFilteredCsv_csvText.
  apply rd_text; [discriminate|].
  constructor.
  - split; [discriminate|]. split; [discriminate|].
    repeat constructor; intros Hcr; discriminate Hcr.
  - apply Forall_forall. intros fs Hfs.
    apply in_map_iff in Hfs as [r [<- Hr]].
    split; [discriminate|]. split; [|now apply H].
    unfold csvLine, recordValues. cbn [map]. rewrite join_cons_cons.
    apply sapp_cons_not_empty.
Qed.

End AnyStandardReader.

Lemma readCsv_standard : StandardReader readCsv.
Proof.
  split.
  - reflexivity.
  - intros st s Hst. destruct st; try congruence; reflexivity.
  - intros st s Hst. destruct st; try congruence; reflexivity.
  - reflexivity.
  - intros st c s Hst Hc Hq Hl Hcr.
    apply Ascii.eqb_neq in Hc, Hq, Hl, Hcr.
    destruct Hst as [-> | ->]; cbn [readCsv]; now rewrite Hc, Hl, Hcr, Hq.
  - intros c s Hq. apply Ascii.eqb_neq in Hq. cbn [readCsv]. now rewrite Hq.
  - reflexivity.
  - reflexivity.
Qed.

Lemma readCsvCR_standard : StandardReader readCsvCR.
Proof.
  split.
  - reflexivity.
  - intros st s Hst. destruct st; try congruence; reflexivity.
  - intros st s Hst. destruct st; try congruence; reflexivity.
  - reflexivity.
  - intros st c s Hst Hc Hq Hl Hcr.
    apply Ascii.eqb_neq in Hc, Hq, Hl, Hcr.
    destruct Hst as [-> | ->]; cbn [readCsvCR]; now rewrite Hc, Hl, Hcr, Hq.
  - intros c s Hq. apply Ascii.eqb_neq in Hq. cbn [readCsvCR]. now rewrite Hq.
  - reflexivity.
  - reflexivity.
Qed.

(** C9, as the code has it.  A field of the export is wrapped in double
    quotes, its own double quotes doubled, exactly when it holds a comma,
    a double quote or a newline, and is written as it is otherwise.  For
    every record set in which each field value that holds a carriage
    return is one that gets quoted, the exported text read by a standard
    CSV reader, whatever that reader makes of a carriage return outside
    quotes, gives the header row and then, record by record, the thirteen
    original field values; so it is for a Program that holds a comma and
    quotes.  Both a reader that takes a lone carriage return for data and
    one that ends the record there are standard readers. *)
Theorem downloadFilteredCsv_round_trip :
  (forall v,
     InStr COMMA v \/ InStr DQUOTE v \/ InStr LF v ->
     csvEscape v = (str DQUOTE ++ doubleQuotes v ++ str DQUOTE)%string)
  /\ (forall v,
        ~ (InStr COMMA v \/ InStr DQUOTE v \/ InStr LF v) ->
        csvEscape v = v)
  /\ (forall rd, StandardReader rd ->
      forall rows : list DerivedRow,
        (forall r, In r rows -> Forall quotedIfCR (recordValues r)) ->
        rd FieldStart (downloadFilteredCsv rows)
        = csvHeaders :: map recordValues rows)
  /\ StandardReader readCsv
  /\ StandardReader readCsvCR
  /\ (let program :=
        ("Bachelor, Arts " ++ str DQUOTE ++ "Honors" ++ str DQUOTE)%string in
      let r := mkProgramRow "Bambang" "CAS" program "" "Undergraduate"
                 "Issued" "041" "" "Level II" "CMO 49" "BOR 12" "Dela Cruz" in
      csvEscape program
      = (str DQUOTE ++ "Bachelor, Arts " ++ str DQUOTE ++ str DQUOTE
           ++ "Honors" ++ str DQUOTE ++ str DQUOTE ++ str DQUOTE)%string
      /\ forall rd, StandardReader rd ->
           rd FieldStart (downloadFilteredCsv (rowsWithDerived [r]))
           = [csvHeaders; recordValues (mkDerivedRow r "Level II")]).
Proof.
  split.
  { intros v H. rewrite csvEscape_cases.
    replace (needsQuotes v) with true; [reflexivity|].
    symmetry. unfold needsQuotes. rewrite <- !hasChar_iff in H.
    rewrite !orb_true_iff. tauto. }
  split.
  { intros v H. rewrite csvEscape_cases.
    replace (needsQuotes v) with false; [reflexivity|].
    symmetry. unfold needsQuotes. rewrite <- !hasChar_iff in H.
    destruct (hasChar COMMA v), (hasChar DQUOTE v), (hasChar LF v);
      try reflexivity; exfalso; apply H; tauto. }
  split; [exact rd_download|].
  split; [exact readCsv_standard|].
  split; [exact readCsvCR_standard|].
  cbv zeta. split; [reflexivity|].
  intros rd Hrd. rewrite (rd_download rd Hrd); [reflexivity|].
  intros r [<- | []]. repeat constructor; intros Hcr; discriminate Hcr.
Qed.

Lemma downloadFilteredCsv_round_trip_witness :
  csvEscape "Santos, Maria" = (str DQUOTE ++ "Santos, Maria" ++ str DQUOTE)%string
  /\ csvEscape "BS Biology" = "BS Biology"
  /\ (let r :=
        mkDerivedRow
          (mkProgramRow "Bambang" "CAS" "BS Biology" "" "Undergraduate"
             "Issued" "041" ("see" ++ str CR ++ str LF ++ "note") "Level II"
             "CMO 49" "BOR 12" "Santos, Maria")
          "Level II" in
      readCsvCR FieldStart (downloadFilteredCsv [r])
      = [csvHeaders; recordValues r]).
Proof.
  destruct downloadFilteredCsv_round_trip
    as [Hquoted [Hplain [Hread [_ [Hcr _]]]]].
  split; [|split].
  - apply (Hquoted "Santos, Maria"). left. simpl. tauto.
  - apply Hplain. simpl. intros H.
    repeat match goal with
           | H : _ \/ _ |- _ => destruct H
           | H : _ = _ |- _ => discriminate H
           end; assumption.
  - cbv zeta. apply (Hread readCsvCR Hcr).
    intros r [<- | []].
    repeat constructor; intros H; try discriminate H; reflexivity.
Defined.

(** C9 as stated fails: a value with a lone carriage return is written
    without quotes, and a reader that ends the record at a carriage
    return reads the export of one record as three records of thirteen,
    three and eleven fields. *)
Lemma downloadFilteredCsv_lone_CR_not_read_back :
  let r := mkProgramRow "Bambang" "CAS" ("a" ++ str CR ++ "b") ""
             "Undergraduate" "Issued" "041" "" "Level II" "CMO 49" "BOR 12"
             "Dela Cruz" in
  StandardReader readCsvCR
  /\ csvEscape ("a" ++ str CR ++ "b") = ("a" ++ str CR ++ "b")%string
  /\ map (@length string)
       (readCsvCR FieldStart (downloadFilteredCsv (rowsWithDerived [r])))
     = [13; 3; 11]
  /\ readCsvCR FieldStart (downloadFilteredCsv (rowsWithDerived [r]))
     <> csvHeaders :: map recordValues (rowsWithDerived [r]).
Proof.
  cbv zeta. split; [exact readCsvCR_standard|]. split; [reflexivity|].
  split; [reflexivity|]. vm_compute. discriminate.
Qed.

End CsvRoundTrip.

(* ================================================================== *)
(** * Further properties of the code *)
(* ================================================================== *)

(** ** Trimming *)

Section TrimFacts.

Lemma trimEnd_idem (s : string) : trimEnd (trimEnd s) = trimEnd s.
Proof.
  induction s as [|c s IH]; [reflexivity|].
  cbn [trimEnd].
  destruct (isWhiteSpace c && negb (truthy (trimEnd s))) eqn:E; [reflexivity|].
  cbn [trimEnd]. now rewrite IH, E.
Qed.

Lemma trimStart_head (s : string) :
  match trimStart s with
  | String c _ => isWhiteSpace c = false
  | EmptyString => True
  end.
Proof.
  induction s as [|c s IH]; [exact I|].
  cbn [trimStart]. destruct (isWhiteSpace c) eqn:E; [exact IH | exact E].
Qed.

Lemma trimStart_trimEnd_head (c : ascii) (s : string) :
  isWhiteSpace c = false ->
  trimStart (trimEnd (String c s)) = trimEnd (String c s).
Proof.
  intros H. cbn [trimEnd]. rewrite H. cbn [andb trimStart]. now rewrite H.
Qed.

Lemma trim_idem (s : string) : trim (trim s) = trim s.
Proof.
  unfold trim. pose proof (trimStart_head s) as H.
  destruct (trimStart s) as [|c t]; [reflexivity|].
  now rewrite (trimStart_trimEnd_head c t H), trimEnd_idem.
Qed.

Lemma trim_Trimmed (s : string) : Trimmed (trim s).
Proof. apply trim_idem. Qed.

End TrimFacts.

(* ================================================================== *)
(** ** The normalizer, beyond the priority rule *)
(* ================================================================== *)

Section Normalizer.

Lemma normalizeAccreditation_cases (raw : string) :
  normalizeAccreditation raw = "Unknown"
  \/ In (normalizeAccreditation raw) (map snd accreditationPriority)
  \/ (normalizeAccreditation raw = trim raw
      /\ trim raw <> EmptyString
      /\ firstMatch accreditationPriority (toUpperCase (trim raw)) = None).
Proof.
  unfold normalizeAccreditation.
  destruct (truthy (trim raw)) eqn:Ht; cbn [negb]; [|now left].
  right. cbn [accreditationPriority firstMatch map snd].
  repeat match goal with
         | |- context [includes ?u ?k] =>
             destruct (includes u k); [left; simpl; tauto|]
         end.
  right. split; [reflexivity|]. split; [now apply truthy_true_iff | reflexivity].
Qed.

(** X1.  Normalizing an accreditation twice is normalizing it once, for
    every input: the canonical labels and Unknown are kept, and a text
    without keyword is already trimmed. *)
Theorem normalizeAccreditation_idempotent (raw : string) :
  normalizeAccreditation (normalizeAccreditation raw)
  = normalizeAccreditation raw.
Proof.
  destruct (normalizeAccreditation_cases raw) as [H | [H | [H [Hne Hnone]]]].
  - now rewrite H.
  - simpl in H.
    repeat (destruct H as [H | H]; [rewrite <- H; reflexivity|]).
    contradiction.
  - rewrite H.
    rewrite (normalizeAccreditation_refines (trim raw)).
    unfold normalizeAccreditation_spec. rewrite trim_idem, Hnone.
    destruct (trim raw); [now elim Hne | reflexivity].
Qed.

(** X2.  The normalized accreditation of any text is shown as it is: it
    is never empty and has no white space at either end; it is Unknown,
    one of the five labels, or the trimmed text itself. *)
Theorem normalizeAccreditation_shown (raw : string) :
  Shown (normalizeAccreditation raw)
  /\ (In (normalizeAccreditation raw)
        ["Unknown"; "Level IV"; "Level III"; "Level II"; "Level I"; "Candidate"]
      \/ normalizeAccreditation raw = trim raw).
Proof.
  destruct (normalizeAccreditation_cases raw) as [H | [H | [H [Hne Hnone]]]].
  - rewrite H. split; [split; [reflexivity | discriminate]|].
    left. simpl. tauto.
  - simpl in H.
    repeat (destruct H as [H | H];
            [rewrite <- H; split;
             [split; [reflexivity | discriminate] | left; simpl; tauto]|]).
    contradiction.
  - rewrite H. split; [split; [apply trim_idem | exact Hne]|]. now right.
Qed.

(** X3.  A cell that is no number is normalized to a text without white
    space at either end; an absent cell, a null and a blank text all give
    the empty string. *)
Theorem normalizeCell_trimmed :
  (forall value,
     (forall shown, value <> VNumber shown) -> Trimmed (normalizeCell value))
  /\ normalizeCell VNull = EmptyString
  /\ normalizeCell VUndefined = EmptyString
  /\ (forall s, trim s = EmptyString -> normalizeCell (VString s) = EmptyString).
Proof.
  split; [|repeat split; auto].
  intros value Hnum. destruct value as [| |s|shown|[]|shown]; cbn [normalizeCell];
    try reflexivity; try apply trim_Trimmed.
  elim (Hnum shown). reflexivity.
Qed.

Lemma normalizeCell_trimmed_witness :
  Trimmed (normalizeCell (VString "  BS Biology ")).
Proof.
  apply (proj1 normalizeCell_trimmed). intros shown. discriminate.
Defined.

End Normalizer.

(* ================================================================== *)
(** ** Searching and selecting *)
(* ================================================================== *)

Section SearchAndSelect.

Lemma toLowerChar_toUpperChar (c : ascii) :
  toLowerChar (toUpperChar c) = toLowerChar c.
Proof. destruct c as [[] [] [] [] [] [] [] []]; reflexivity. Qed.

Lemma toLowerCase_toUpperCase (s : string) :
  toLowerCase (toUpperCase s) = toLowerCase s.
Proof.
  unfold toLowerCase, toUpperCase.
  induction s as [|c s IH]; cbn [mapChars]; [reflexivity|].
  now rewrite toLowerChar_toUpperChar, IH.
Qed.

Lemma mapChars_join (f : ascii -> ascii) (sep : string) (l : list string) :
  mapChars f (join sep l) = join (mapChars f sep) (map (mapChars f) l).
Proof.
  unfold join. induction l as [|x l IH]; [reflexivity|].
  destruct l as [|y l]; [reflexivity|].
  change (String.concat sep (x :: y :: l))
    with (x ++ sep ++ String.concat sep (y :: l))%string.
  rewrite !mapChars_app, IH. reflexivity.
Qed.

Lemma filter_truthy_mapChars (f : ascii -> ascii) (l : list string) :
  filter truthy (map (mapChars f) l) = map (mapChars f) (filter truthy l).
Proof.
  induction l as [|x l IH]; [reflexivity|].
  cbn [map filter]. rewrite truthy_mapChars.
  destruct (truthy x); cbn [map]; now rewrite IH.
Qed.

Lemma haystackOf_fields (r : ProgramRow) :
  haystackOf r = join " | " (filter truthy (map toLowerCase (searchFields r))).
Proof.
  unfold haystackOf, toLowerCase.
  now rewrite mapChars_join, filter_truthy_mapChars.
Qed.

(** X4.  For a query of ASCII characters the search gives the same
    answer when the query is put in upper case; it does not look at the
    outer white space of the query; and two records of ASCII fields whose
    searched fields agree up to letter case are found by the same
    queries. *)
Theorem includesSearch_case_insensitive :
  (forall (r : ProgramRow) q,
     asciiOnly q = true ->
     includesSearch r (toUpperCase q) = includesSearch r q)
  /\ (forall (r : ProgramRow) q,
        includesSearch r (trim q) = includesSearch r q)
  /\ (forall (r r' : ProgramRow) q,
        forallb asciiOnly (searchFields r) = true ->
        forallb asciiOnly (searchFields r') = true ->
        map toLowerCase (searchFields r) = map toLowerCase (searchFields r') ->
        includesSearch r q = includesSearch r' q).
Proof.
  split; [|split].
  - intros r q _. unfold includesSearch.
    now rewrite <- toUpperCase_trim, toLowerCase_toUpperCase.
  - intros r q. unfold includesSearch. now rewrite trim_idem.
  - intros r r' q _ _ H. unfold includesSearch.
    now rewrite !haystackOf_fields, H.
Qed.

Lemma includesSearch_case_insensitive_witness :
  includesSearch
    (mkProgramRow "Bambang" "CAS" "BS BIOLOGY" "" "" "" "" "" "" "" "" "Cruz")
    "BIO"
  = includesSearch
      (mkProgramRow "Solano" "cas" "bs Biology" "" "" "" "" "" "" "" "" "CRUZ")
      "bio".
Proof.
  destruct includesSearch_case_insensitive as [Hq [_ Hr]].
  rewrite (Hq _ "bio" eq_refl). apply Hr; reflexivity.
Defined.

Lemma keepRow_withSelection (d : Dimension) (s : list string)
  (f : FilterState) (r : DerivedRow) :
  keepRow (withSelection d s f) r = true <->
  matchesMulti s (dimValue d r) = true
  /\ keepRow (withSelection d [] f) r = true.
Proof.
  rewrite !keepRow_true_iff.
  destruct d; cbn; rewrite ?matchesMulti_nil; tauto.
Qed.

(** X5.  Selecting, in one dimension, values among which every record
    finds its own is the same as selecting nothing in that dimension. *)
Theorem filteredRows_select_all (rows : list DerivedRow) (f : FilterState)
  (d : Dimension) (s : list string) :
  (forall r, In r rows -> In (dimValue d r) s) ->
  filteredRows rows (withSelection d s f)
  = filteredRows rows (withSelection d [] f).
Proof.
  intros Hall. unfold filteredRows. apply filter_ext_in. intros r Hr.
  apply eq_true_iff_eq. rewrite keepRow_withSelection.
  split; [tauto|]. intros H. split; [|exact H].
  destruct s as [|x s]; [reflexivity|].
  apply matchesMulti_cons_iff; [discriminate | now apply Hall].
Qed.

Lemma filteredRows_select_all_witness :
  let rows := rowsWithDerived
    [ mkProgramRow "Bambang" "CAS" "BS Biology" "" "Undergraduate" "Issued"
        "041" "" "Level II" "CMO 49" "BOR 12" "Dela Cruz";
      mkProgramRow "Bambang" "CTE" "BSEd" "English" "Undergraduate"
        "Under Application" "" "" "" "" "" "Santos" ] in
  filteredRows rows (withSelection ByCollege ["CTE"; "CAS"; "CBA"] DEFAULT_FILTERS)
  = filteredRows rows (withSelection ByCollege [] DEFAULT_FILTERS).
Proof.
  cbv zeta. apply filteredRows_select_all.
  intros r [<- | [<- | []]]; simpl; tauto.
Defined.

Lemma optionList_options (d : Dimension) (rows : list DerivedRow) :
  optionList d (options rows) = uniqSorted (map (dimValue d) rows).
Proof. destruct d; reflexivity. Qed.

(** X8.  The option list of a dimension holds every value that a record
    shows in it (not empty, no outer white space), and when the records
    carry trimmed values, as ingestion leaves them, every option taken
    alone as the selection keeps at least one record, one that has this
    value. *)
Theorem options_select_a_record (rows : list DerivedRow) (d : Dimension) :
  (forall r, In r rows -> Shown (dimValue d r) ->
             In (dimValue d r) (optionList d (options rows)))
  /\ ((forall r, In r rows -> Trimmed (dimValue d r)) ->
      forall c, In c (optionList d (options rows)) ->
        exists r,
          In r (filteredRows rows (withSelection d [c] DEFAULT_FILTERS))
          /\ dimValue d r = c).
Proof.
  rewrite optionList_options. split.
  - intros r Hr [Ht Hne]. apply uniqSorted_In. split; [exact Hne|].
    exists (dimValue d r). split; [now apply in_map | now rewrite Ht].
  - intros Htrim c Hc. apply uniqSorted_In in Hc as [Hne [v [Hv ->]]].
    apply in_map_iff in Hv as [r [<- Hr]].
    exists r. rewrite (Htrim r Hr). split; [|reflexivity].
    apply filter_In. split; [exact Hr|].
    apply keepRow_withSelection. split.
    + apply matchesMulti_cons_iff; [discriminate | now left].
    + apply keepRow_true_iff. destruct d; cbn; repeat split; try discriminate.
Qed.

Lemma options_select_a_record_witness :
  let rows := rowsWithDerived
    [ mkProgramRow "Bambang" "CAS" "BS Biology" "" "Undergraduate" "Issued"
        "041" "" "level ii" "CMO 49" "BOR 12" "Dela Cruz" ] in
  In "Level II" (optionList ByAccreditation (options rows))
  /\ exists r,
       In r (filteredRows rows
               (withSelection ByAccreditation ["Level II"] DEFAULT_FILTERS))
       /\ dimValue ByAccreditation r = "Level II".
Proof.
  cbv zeta.
  match goal with
  | |- In _ (optionList _ (options ?rows)) /\ _ =>
      destruct (options_select_a_record rows ByAccreditation) as [Hin Hsel]
  end.
  split.
  - apply (Hin (mkDerivedRow
                  (mkProgramRow "Bambang" "CAS" "BS Biology" "" "Undergraduate"
                     "Issued" "041" "" "level ii" "CMO 49" "BOR 12" "Dela Cruz")
                  "Level II")).
    + left. reflexivity.
    + split; [reflexivity | discriminate].
  - apply Hsel.
    + intros r [<- | []]. reflexivity.
    + left. reflexivity.
Defined.

End SearchAndSelect.

(* ================================================================== *)
(** ** KPI bounds and re-extraction of distinct values *)
(* ================================================================== *)

Section KpiBounds.

Lemma fold_setAdd_length (arr acc : list string) :
  length (fold_left setAdd arr acc) <= length acc + length arr.
Proof.
  revert acc; induction arr as [|x arr IH]; intros acc; cbn [fold_left length].
  - lia.
  - specialize (IH (setAdd acc x)).
    assert (length (setAdd acc x) <= S (length acc)).
    { unfold setAdd. destruct (arrayIncludes acc x); [lia|].
      rewrite length_app. simpl. lia. }
    lia.
Qed.

Lemma status_classes_disjoint (s : string) :
  (if (s =? "issued")%string then 1 else 0)
  + (if (s =? "under application")%string then 1 else 0)
  + (if includes s "phase-out" then 1 else 0) <= 1.
Proof.
  destruct (s =? "issued")%string eqn:E1.
  { apply String.eqb_eq in E1. subst s. cbn. lia. }
  destruct (s =? "under application")%string eqn:E2.
  { apply String.eqb_eq in E2. subst s. cbn. lia. }
  destruct (includes s "phase-out"); lia.
Qed.

(** X6.  In the KPI summary the three status counts are counts of
    different records: issued, under application and phase-out together
    never exceed the total; nor does the number of colleges. *)
Theorem kpis_bounds (rows : list DerivedRow) :
  Kpis.issued (kpis rows) + Kpis.underApp (kpis rows)
    + Kpis.phaseOut (kpis rows) <= Kpis.total (kpis rows)
  /\ Kpis.colleges (kpis rows) <= Kpis.total (kpis rows).
Proof.
  split.
  - cbn [kpis Kpis.issued Kpis.underApp Kpis.phaseOut Kpis.total].
    induction rows as [|r rows IH]; [cbn; lia|].
    cbn [filter].
    pose proof (status_classes_disjoint (toLowerCase (COPC_Status r))) as H.
    destruct (toLowerCase (COPC_Status r) =? "issued")%string,
      (toLowerCase (COPC_Status r) =? "under application")%string,
      (includes (toLowerCase (COPC_Status r)) "phase-out");
      cbn [length] in *; lia.
  - cbn [kpis Kpis.colleges Kpis.total]. unfold setFromArray.
    etransitivity; [apply fold_setAdd_length|]. cbn [length plus].
    etransitivity; [apply filter_length_le'|]. now rewrite length_map.
Qed.

Lemma fold_setAdd_fresh (arr acc : list string) :
  NoDup (acc ++ arr) -> fold_left setAdd arr acc = acc ++ arr.
Proof.
  revert acc; induction arr as [|x arr IH]; intros acc H; cbn [fold_left].
  - now rewrite app_nil_r.
  - assert (Hx : arrayIncludes acc x = false).
    { apply arrayIncludes_false_iff. intros Hin.
      apply NoDup_remove_2 in H. apply H, in_or_app. now left. }
    unfold setAdd. rewrite Hx.
    rewrite IH; rewrite <- app_assoc; [reflexivity | exact H].
Qed.

Lemma setFromArray_NoDup_id (arr : list string) :
  NoDup arr -> setFromArray arr = arr.
Proof. intros H. unfold setFromArray. now rewrite fold_setAdd_fresh. Qed.

Lemma insertSorted_first {A : Type} (cmp : A -> A -> comparison) (x : A)
  (l : list A) :
  Forall (notAfter cmp x) l -> insertSorted cmp x l = x :: l.
Proof.
  intros H. destruct l as [|y l]; [reflexivity|].
  inversion H as [|? ? Hxy _]; subst. unfold notAfter in Hxy.
  cbn [insertSorted]. destruct (cmp x y); congruence.
Qed.

Lemma sort_sorted_id {A : Type} (cmp : A -> A -> comparison) (l : list A) :
  StronglySorted (notAfter cmp) l -> sort cmp l = l.
Proof.
  induction 1 as [|x l Hs IH Hx]; [reflexivity|].
  cbn [sort]. rewrite IH. now apply insertSorted_first.
Qed.

Lemma map_fixed {A : Type} (f : A -> A) (l : list A) :
  (forall x, In x l -> f x = x) -> map f l = l.
Proof.
  induction l as [|x l IH]; intros H; [reflexivity|].
  cbn [map]. rewrite (H x) by now left.
  rewrite IH; [reflexivity|]. intros y Hy. apply H. now right.
Qed.

Lemma filter_all {A : Type} (p : A -> bool) (l : list A) :
  (forall x, In x l -> p x = true) -> filter p l = l.
Proof.
  induction l as [|x l IH]; intros H; [reflexivity|].
  cbn [filter]. rewrite (H x) by now left.
  rewrite IH; [reflexivity|]. intros y Hy. apply H. now right.
Qed.

(** X7.  Extracting the distinct values of a list of distinct values
    already extracted changes nothing: an option list is its own option
    list. *)
Theorem uniqSorted_idempotent (values : list string) :
  uniqSorted (uniqSorted values) = uniqSorted values.
Proof.
  pose proof (uniqSorted_In values) as Hin.
  pose proof (uniqSorted_NoDup values) as Hnd.
  assert (Hsorted : StronglySorted (notAfter localeCompareBase)
                      (uniqSorted values)).
  { apply sort_sorted;
      [exact localeCompareBase_total | exact localeCompareBase_trans]. }
  unfold uniqSorted at 1.
  rewrite (map_fixed trim).
  - rewrite filter_all.
    + rewrite (setFromArray_NoDup_id _ Hnd). now apply sort_sorted_id.
    + intros x Hx. apply Hin in Hx as [Hne _]. now apply truthy_true_iff.
  - intros x Hx. apply Hin in Hx as [_ [v [_ ->]]]. apply trim_idem.
Qed.

End KpiBounds.

(* ================================================================== *)
(** ** The states of the component *)
(* ================================================================== *)

Section ComponentStates.

Lemma parse_resolved (file : FileContents) (rows : list ProgramRow) :
  parseXlsxFirstSheet file = Resolved rows ->
  exists wb name,
    file = Parsed wb
    /\ nth_error (SheetNames wb) 0 = Some name
    /\ name <> EmptyString
    /\ rows = map toProgramRow (sheet_to_json (sheetByName (Sheets wb) name))
    /\ match sheet_to_json (sheetByName (Sheets wb) name) with
       | [] => True
       | first :: _ => validateHeaders (objectKeys first) = None
       end.
Proof.
  intros H. destruct file as [| message | wb]; try discriminate.
  exists wb. unfold parseXlsxFirstSheet in H.
  destruct (nth_error (SheetNames wb) 0) as [name|]; [|discriminate].
  exists name.
  destruct (truthy name) eqn:Hname; cbn [negb] in H; [|discriminate].
  apply truthy_true_iff in Hname.
  destruct (sheet_to_json (sheetByName (Sheets wb) name)) as [|first rest].
  - injection H as <-. repeat split; auto.
  - destruct (validateHeaders (objectKeys first)); [discriminate|].
    injection H as <-. repeat split; auto.
Qed.

(** X9.  A parse that resolves gives one record per row object of the
    first sheet, in the same order, each the row object read field by
    field; the sheet then has no data row or its first row carries all
    expected headers. *)
Theorem parseXlsxFirstSheet_resolved_rows
  (file : FileContents) (rows : list ProgramRow) :
  parseXlsxFirstSheet file = Resolved rows ->
  exists wb name,
    file = Parsed wb
    /\ nth_error (SheetNames wb) 0 = Some name
    /\ rows = map toProgramRow (sheet_to_json (sheetByName (Sheets wb) name))
    /\ length rows = length (sheet_to_json (sheetByName (Sheets wb) name))
    /\ (rows = [] \/
        exists first rest,
          sheet_to_json (sheetByName (Sheets wb) name) = first :: rest
          /\ validateHeaders (objectKeys first) = None).
Proof.
  intros H. destruct (parse_resolved file rows H)
    as [wb [name [Hf [Hn [_ [Hrows Hv]]]]]].
  exists wb, name. repeat split; try assumption.
  - rewrite Hrows. apply length_map.
  - destruct (sheet_to_json (sheetByName (Sheets wb) name)) as [|first rest].
    + left. exact Hrows.
    + right. now exists first, rest.
Qed.

Lemma parseXlsxFirstSheet_resolved_rows_witness :
  exists wb name,
    oneSheet [sampleRawRow "Bambang"; sampleRawRow "Solano"] = Parsed wb
    /\ nth_error (SheetNames wb) 0 = Some name
    /\ map toProgramRow [sampleRawRow "Bambang"; sampleRawRow "Solano"]
       = map toProgramRow (sheet_to_json (sheetByName (Sheets wb) name)).
Proof.
  destruct (parseXlsxFirstSheet_resolved_rows
              (oneSheet [sampleRawRow "Bambang"; sampleRawRow "Solano"])
              (map toProgramRow [sampleRawRow "Bambang"; sampleRawRow "Solano"])
              eq_refl)
    as [wb [name [Hf [Hn [Hrows _]]]]].
  exists wb, name. repeat split; assumption.
Defined.

(** X10.  Every rejection of the parse is one of four: the file could not
    be read, the bytes are no workbook (the message of the reader is
    passed on), the workbook has no first sheet name, or the first data
    row lacks expected headers. *)
Theorem parseXlsxFirstSheet_rejections
  (file : FileContents) (message : string) :
  parseXlsxFirstSheet file = Rejected message ->
  (file = Unreadable /\ message = "Failed to read the file.")
  \/ file = Malformed message
  \/ (exists wb,
        file = Parsed wb
        /\ message = "No sheets found in the workbook."
        /\ (nth_error (SheetNames wb) 0 = None
            \/ nth_error (SheetNames wb) 0 = Some EmptyString))
  \/ (exists wb name first rest,
        file = Parsed wb
        /\ nth_error (SheetNames wb) 0 = Some name
        /\ sheetByName (Sheets wb) name = Some (first :: rest)
        /\ validateHeaders (objectKeys first) = Some message).
Proof.
  intros H. destruct file as [| m | wb].
  - left. injection H as <-. now split.
  - right. left. now injection H as ->.
  - right. right. unfold parseXlsxFirstSheet in H.
    destruct (nth_error (SheetNames wb) 0) as [name|] eqn:Hn.
    + destruct name as [|c name]; cbn [truthy negb] in H.
      * left. exists wb. injection H as <-. repeat split. now right.
      * destruct (sheetByName (Sheets wb) (String c name))
          as [[|first rest]|] eqn:Hs; cbn [sheet_to_json] in H;
          try discriminate.
        destruct (validateHeaders (objectKeys first)) eqn:Hv; [|discriminate].
        right. exists wb, (String c name), first, rest.
        injection H as <-. repeat split; assumption.
    + left. exists wb. injection H as <-. repeat split. now left.
Qed.

Lemma parseXlsxFirstSheet_rejections_witness :
  (Parsed (mkWorkBook [] []) = Unreadable
   /\ "No sheets found in the workbook." = "Failed to read the file.")
  \/ Parsed (mkWorkBook [] []) = Malformed "No sheets found in the workbook."
  \/ (exists wb,
        Parsed (mkWorkBook [] []) = Parsed wb
        /\ "No sheets found in the workbook." = "No sheets found in the workbook."
        /\ (nth_error (SheetNames wb) 0 = None
            \/ nth_error (SheetNames wb) 0 = Some EmptyString))
  \/ (exists wb name first rest,
        Parsed (mkWorkBook [] []) = Parsed wb
        /\ nth_error (SheetNames wb) 0 = Some name
        /\ sheetByName (Sheets wb) name = Some (first :: rest)
        /\ validateHeaders (objectKeys first)
           = Some "No sheets found in the workbook.").
Proof.
  apply (parseXlsxFirstSheet_rejections (Parsed (mkWorkBook [] []))).
  reflexivity.
Defined.

Lemma getProp_missing (r : RawRow) (key : string) :
  ~ In key (objectKeys r) -> getProp r key = VUndefined.
Proof.
  induction r as [|[k v] r IH]; intros H; [reflexivity|].
  cbn [getProp]. destruct (k =? key)%string eqn:E.
  - apply String.eqb_eq in E. elim H. left. exact E.
  - apply IH. intros Hin. apply H. now right.
Qed.

(** X11.  The cells are read by the exact header text although the
    validation compares trimmed headers: a row object without a key that
    is exactly Campus is read with an empty Campus and is not retained as
    a Bambang row, whatever its other keys. *)
Theorem toProgramRow_exact_key (r : RawRow) :
  ~ In "Campus" (objectKeys r) ->
  Campus (toProgramRow r) = EmptyString
  /\ isBambang (toProgramRow r) = false.
Proof.
  intros H. unfold isBambang. cbn [toProgramRow Campus].
  rewrite (getProp_missing r "Campus" H). split; reflexivity.
Qed.

Lemma toProgramRow_exact_key_witness :
  let r := (" Campus", VString "Bambang") :: tl (sampleRawRow "Bambang") in
  validateHeaders (objectKeys r) = None
  /\ Campus (toProgramRow r) = EmptyString
  /\ isBambang (toProgramRow r) = false.
Proof.
  cbv zeta. split; [reflexivity|].
  apply toProgramRow_exact_key. simpl. intros H.
  repeat (destruct H as [H | H]; [discriminate|]). exact H.
Defined.

Lemma onFileSelected_two_halves (st : AppState) (file : option FileContents) :
  onFileSelected st file
  = match file with
    | None => startUpload st
    | Some f => settleUpload (parseXlsxFirstSheet f) (startUpload st)
    end.
Proof.
  unfold onFileSelected, settleUpload, startUpload.
  destruct file as [f|]; [|reflexivity].
  destruct (parseXlsxFirstSheet f); reflexivity.
Qed.

(** X12.  In every state the component can reach, uploads overlapping or
    not, loaded data keep the Bambang rows of what was parsed and the
    count of the others, and whatever the filter state, each filtered
    record is a parsed record whose Campus is Bambang up to letter case
    and outer white space.  (An error message of an upload that failed
    meanwhile may stand beside the loaded data.) *)
Theorem reachable_states_show_bambang_only :
  (forall st file,
     onFileSelected st file
     = match file with
       | None => startUpload st
       | Some f => settleUpload (parseXlsxFirstSheet f) (startUpload st)
       end)
  /\ (forall st,
        Reachable st ->
        forall d, loaded st = Some d ->
          bambang d = filter isBambang (raw d)
          /\ removedNonBambangCount d
             = Z.of_nat (length (filter (fun r => negb (isBambang r)) (raw d)))
          /\ (forall f (r : DerivedRow),
                In r (filteredRows (rowsWithDerived (bambang d)) f) ->
                In (row r) (raw d)
                /\ equalIgnoringCase (trim (Campus r)) "Bambang"
                /\ AccreditationNormalized r
                   = normalizeAccreditation (Accreditation r))).
Proof.
  split; [exact onFileSelected_two_halves|].
  intros st Hreach.
  assert (Hinv : forall d, loaded st = Some d ->
            bambang d = filter isBambang (raw d)
            /\ removedNonBambangCount d
               = Z.of_nat (length (filter (fun r => negb (isBambang r)) (raw d)))).
  { induction Hreach as [|st _ IH|st file _ IH|st next _ IH]; intros d Hd.
    - discriminate.
    - exact (IH d Hd).
    - unfold settleUpload in Hd.
      destruct (parseXlsxFirstSheet file) as [message | rows];
        cbn [loaded] in Hd; [discriminate|].
      injection Hd as <-. cbn [bambang raw removedNonBambangCount].
      split; [reflexivity|].
      pose proof (filter_length_split isBambang rows). lia.
    - exact (IH d Hd). }
  intros d Hd. destruct (Hinv d Hd) as [Hb Hr].
  repeat split; try assumption.
  - apply filter_In in H as [H _]. apply in_map_iff in H as [r0 [<- H0]].
    rewrite Hb in H0. now apply filter_In in H0 as [H0 _].
  - apply filter_In in H as [H _]. apply in_map_iff in H as [r0 [<- H0]].
    rewrite Hb in H0. apply filter_In in H0 as [_ H0].
    now apply isBambang_iff.
  - apply filter_In in H as [H _]. apply in_map_iff in H as [r0 [<- _]].
    reflexivity.
Qed.

Lemma reachable_states_show_bambang_only_witness :
  let first := oneSheet [sampleRawRow "Solano"; sampleRawRow "BAMBANG"] in
  let st :=
    settleUpload (parseXlsxFirstSheet first)
      (settleUpload (parseXlsxFirstSheet Unreadable)
         (startUpload (startUpload initialState))) in
  error st = Some "Failed to read the file."
  /\ exists d,
       loaded st = Some d
       /\ map Campus (raw d) = ["Solano"; "BAMBANG"]
       /\ bambang d = filter isBambang (raw d)
       /\ removedNonBambangCount d = 1%Z.
Proof.
  cbv zeta. split; [reflexivity|].
  eexists. split; [reflexivity|]. split; [reflexivity|].
  match goal with
  | |- bambang ?d = _ /\ _ =>
      destruct (proj2 reachable_states_show_bambang_only _
                  (Reachable_settle _
                     (oneSheet [sampleRawRow "Solano"; sampleRawRow "BAMBANG"])
                     (Reachable_settle _ Unreadable
                        (Reachable_start _
                           (Reachable_start _ Reachable_initial))))
                  d eq_refl) as [Hb [Hr _]]
  end.
  split; [exact Hb|]. rewrite Hr. reflexivity.
Defined.

End ComponentStates.

(* ================================================================== *)
(** ** The export, field by field and line by line *)
(* ================================================================== *)

Section CsvLines.

Lemma parseCsv_csvEscape (v : string) : parseCsv (csvEscape v) = [[v]].
Proof.
  unfold parseCsv. rewrite <- (sapp_nil_r (csvEscape v)).
  rewrite readCsv_field; [|now left | discriminate].
  cbn [readCsv pushChars]. now rewrite sapp_nil_r.
Qed.

(** X13.  The escaping of a field loses nothing: a field alone reads back
    as itself, so two different values are never written the same way. *)
Theorem csvEscape_reversible :
  (forall v, parseCsv (csvEscape v) = [[v]])
  /\ (forall v w, csvEscape v = csvEscape w -> v = w).
Proof.
  split; [exact parseCsv_csvEscape|].
  intros v w H.
  pose proof (parseCsv_csvEscape v) as Hv. rewrite H, parseCsv_csvEscape in Hv.
  now injection Hv.
Qed.

Lemma csvEscape_reversible_witness :
  parseCsv (csvEscape "Santos, Maria") = [["Santos, Maria"]]
  /\ "Santos, Maria" = "Santos, Maria".
Proof.
  split.
  - apply (proj1 csvEscape_reversible).
  - apply (proj2 csvEscape_reversible). reflexivity.
Defined.

End CsvLines.

(* ================================================================== *)
(** ** Cross-tabulations: every record is counted once *)
(* ================================================================== *)

Section Tabulation.

Context {R : Type}.

Lemma list_sum_map_add {C : Type} (f g : C -> nat) (l : list C) :
  list_sum (map (fun c => f c + g c) l)
  = list_sum (map f l) + list_sum (map g l).
Proof.
  unfold list_sum. induction l as [|c l IH]; cbn [map fold_right]; lia.
Qed.

Lemma list_sum_concat (l : list (list nat)) :
  list_sum (concat l) = list_sum (map list_sum l).
Proof.
  induction l as [|x l IH]; [reflexivity|].
  cbn [concat map list_sum fold_right]. rewrite list_sum_app, IH. reflexivity.
Qed.

Lemma indicator_sum (cats : list string) (v : string) :
  NoDup cats ->
  list_sum (map (fun c => if (v =? c)%string then 1 else 0) cats)
  = if arrayIncludes cats v then 1 else 0.
Proof.
  induction 1 as [|c cats Hc Hnd IH]; [reflexivity|].
  unfold arrayIncludes in *. cbn [map list_sum fold_right existsb].
  fold (list_sum (map (fun c => if (v =? c)%string then 1 else 0) cats)).
  rewrite IH. destruct (v =? c)%string eqn:E; [|reflexivity].
  apply String.eqb_eq in E. subst c.
  apply arrayIncludes_false_iff in Hc. unfold arrayIncludes in Hc.
  now rewrite Hc.
Qed.

Lemma filter_length_cons (p : R -> bool) (r : R) (rows : list R) :
  length (filter p (r :: rows))
  = (if p r then 1 else 0) + length (filter p rows).
Proof. cbn [filter]. destruct (p r); reflexivity. Qed.

(** Counting by category, with distinct categories, counts each row whose
    key is a category once. *)
Lemma tabulate_sum (k : R -> string) (cats : list string) (rows : list R) :
  NoDup cats ->
  list_sum (map (fun c => length (filter (fun r => (k r =? c)%string) rows)) cats)
  = length (filter (fun r => arrayIncludes cats (k r)) rows).
Proof.
  intros Hnd. induction rows as [|r rows IH].
  - cbn [filter length]. induction cats as [|c cats IHc]; [reflexivity|].
    cbn. apply IHc. now inversion Hnd.
  - rewrite filter_length_cons, <- IH, <- (indicator_sum cats (k r) Hnd).
    rewrite <- list_sum_map_add. f_equal. apply map_ext. intros c.
    apply filter_length_cons.
Qed.

Lemma filter_andb (p q : R -> bool) (rows : list R) :
  filter (fun r => p r && q r) rows = filter p (filter q rows).
Proof.
  induction rows as [|r rows IH]; [reflexivity|].
  cbn [filter]. destruct (q r); cbn [filter]; rewrite ?andb_true_r, ?andb_false_r.
  - destruct (p r); now rewrite IH.
  - exact IH.
Qed.

Lemma filter_comm (p q : R -> bool) (rows : list R) :
  filter p (filter q rows) = filter q (filter p rows).
Proof.
  rewrite <- !filter_andb. apply filter_ext. intros r. apply andb_comm.
Qed.

(** The cells of a two-way table add up to the number of rows whose two
    keys are categories. *)
Lemma crosstab_sum (k1 k2 : R -> string) (cats1 cats2 : list string)
  (rows : list R) :
  NoDup cats1 -> NoDup cats2 ->
  list_sum
    (concat
       (map (fun s =>
               map (fun c =>
                      length (filter (fun r => (k1 r =? c)%string
                                               && (k2 r =? s)%string) rows))
                   cats1)
            cats2))
  = length (filter (fun r => arrayIncludes cats2 (k2 r))
              (filter (fun r => arrayIncludes cats1 (k1 r)) rows)).
Proof.
  intros H1 H2. rewrite list_sum_concat, map_map.
  rewrite <- (tabulate_sum k2 cats2 _ H2). f_equal. apply map_ext. intros s.
  rewrite (filter_comm _ (fun r => arrayIncludes cats1 (k1 r))).
  rewrite <- (tabulate_sum k1 cats1 _ H1). f_equal. apply map_ext. intros c.
  now rewrite filter_andb.
Qed.

End Tabulation.

Section Charts.

Lemma shown_in_uniqSorted {R : Type} (k : R -> string) (rows : list R) (r : R) :
  In r rows -> Shown (k r) -> arrayIncludes (uniqSorted (map k rows)) (k r) = true.
Proof.
  intros Hr [Ht Hne]. apply arrayIncludes_iff, uniqSorted_In.
  split; [exact Hne|]. exists (k r). split; [now apply in_map | now rewrite Ht].
Qed.

Lemma crosstab_total (k1 k2 : DerivedRow -> string) (rows : list DerivedRow) :
  let cats1 := uniqSorted (map k1 rows) in
  let cats2 := uniqSorted (map k2 rows) in
  let cells :=
    concat
      (map (fun s =>
              map (fun c =>
                     length (filter (fun r => (k1 r =? c)%string
                                              && (k2 r =? s)%string) rows))
                  cats1)
           cats2) in
  list_sum cells <= length rows
  /\ ((forall r, In r rows -> Shown (k1 r) /\ Shown (k2 r)) ->
      list_sum cells = length rows).
Proof.
  cbv zeta. rewrite crosstab_sum by apply uniqSorted_NoDup. split.
  - etransitivity; apply filter_length_le'.
  - intros H. rewrite !filter_all; [reflexivity | |].
    + intros r Hr. apply shown_in_uniqSorted; [exact Hr | apply (H r Hr)].
    + intros r Hr. rewrite filter_all in Hr.
      * apply shown_in_uniqSorted; [exact Hr | apply (H r Hr)].
      * intros r' Hr'. apply shown_in_uniqSorted; [exact Hr' | apply (H r' Hr')].
Qed.

(** X15.  In the two stacked bar charts (College by COPC Status, College
    by Level) every series has one count per college of the axis, no
    record is counted twice, and when the records show a College and a
    COPC Status, resp. a Level (not empty, no outer white space), the
    counts add up to the number of records. *)
Theorem stacked_bars_count_every_record (rows : list DerivedRow) :
  (let o := copcByCollegeOption rows in
   Forall (fun s => length (Series.data s) = length (BarOption.xAxis_data o))
     (BarOption.series o)
   /\ list_sum (concat (map Series.data (BarOption.series o))) <= length rows
   /\ ((forall r : DerivedRow,
          In r rows -> Shown (College r) /\ Shown (COPC_Status r)) ->
       list_sum (concat (map Series.data (BarOption.series o))) = length rows))
  /\ (let o := offeringsByCollegeLevelOption rows in
      Forall (fun s => length (Series.data s) = length (BarOption.xAxis_data o))
        (BarOption.series o)
      /\ list_sum (concat (map Series.data (BarOption.series o))) <= length rows
      /\ ((forall r : DerivedRow,
             In r rows -> Shown (College r) /\ Shown (Level r)) ->
          list_sum (concat (map Series.data (BarOption.series o)))
          = length rows)).
Proof.
  split; cbv zeta.
  - unfold copcByCollegeOption. cbn [BarOption.series BarOption.xAxis_data].
    split.
    { apply Forall_forall. intros s Hs. apply in_map_iff in Hs as [x [<- _]].
      cbn [Series.data]. apply length_map. }
    rewrite map_map. cbn [Series.data].
    exact (crosstab_total (fun r => College r) (fun r => COPC_Status r) rows).
  - unfold offeringsByCollegeLevelOption.
    cbn [BarOption.series BarOption.xAxis_data]. split.
    { apply Forall_forall. intros s Hs. apply in_map_iff in Hs as [x [<- _]].
      cbn [Series.data]. apply length_map. }
    rewrite map_map. cbn [Series.data].
    exact (crosstab_total (fun r => College r) (fun r => Level r) rows).
Qed.

Lemma stacked_bars_count_every_record_witness :
  let rows := rowsWithDerived
    [ mkProgramRow "Bambang" "CAS" "BS Biology" "" "Undergraduate" "Issued"
        "041" "" "Level II" "CMO 49" "BOR 12" "Dela Cruz";
      mkProgramRow "Bambang" "CTE" "BSEd" "English" "Undergraduate"
        "Under Application" "" "" "" "" "" "Santos" ] in
  list_sum (concat (map Series.data (BarOption.series (copcByCollegeOption rows))))
  = length rows.
Proof.
  cbv zeta.
  match goal with
  | |- _ = length ?rows =>
      destruct (stacked_bars_count_every_record rows) as [[_ [_ H]] _]
  end.
  apply H. intros r [<- | [<- | []]]; repeat split; discriminate.
Defined.

End Charts.

(* ================================================================== *)
(** ** Axis labels, the distribution and the heat map *)
(* ================================================================== *)

Section AxisLabels.

Lemma splitWhiteSpace_pieces (s : string) :
  Forall (fun w => forall c, InStr c w -> isWhiteSpace c = false)
    (splitWhiteSpace s).
Proof.
  induction s as [|a s IH].
  - repeat constructor. intros c [].
  - cbn [splitWhiteSpace]. destruct (isWhiteSpace a) eqn:Ea.
    + destruct s as [|d s'].
      * constructor; [intros c [] | exact IH].
      * destruct (isWhiteSpace d); [exact IH|].
        constructor; [intros c [] | exact IH].
    + destruct (splitWhiteSpace s) as [|w ws].
      * repeat constructor. intros c [<- | []]. exact Ea.
      * inversion IH as [|? ? Hw Hws]; subst. constructor; [|exact Hws].
        intros c [<- | Hc]; [exact Ea | now apply Hw].
Qed.

Lemma words_of_label (s : string) :
  Forall Word (filter truthy (splitWhiteSpace s)).
Proof.
  apply Forall_forall. intros w Hw. apply filter_In in Hw as [Hin Ht].
  split; [now apply truthy_true_iff|].
  pose proof (splitWhiteSpace_pieces s) as H. rewrite Forall_forall in H.
  now apply H.
Qed.

Lemma join_truthy (sep w : string) (ws : list string) :
  w <> EmptyString -> truthy (join sep (w :: ws)) = true.
Proof.
  intros H. destruct ws as [|y ws].
  - now apply truthy_true_iff.
  - rewrite join_cons_cons. destruct w; [congruence | reflexivity].
Qed.

Lemma join_snoc (sep p : string) (g : list string) :
  g <> [] -> join sep (g ++ [p]) = (join sep g ++ sep ++ p)%string.
Proof.
  induction g as [|x g IH]; intros H; [congruence|].
  destruct g as [|y g].
  - reflexivity.
  - change ((x :: y :: g) ++ [p]) with (x :: (y :: g) ++ [p]).
    cbn [app]. rewrite !join_cons_cons.
    change (y :: g ++ [p]) with ((y :: g) ++ [p]).
    rewrite IH by discriminate. now rewrite !sapp_assoc.
Qed.

(** The loop keeps the words in groups: the lines pushed are well-filled
    groups, the line being filled is a group that is empty or well
    filled, and the groups in turn are the words read so far. *)
Lemma wrap_loop (maxLineLen : nat) (parts : list string) :
  Forall Word parts ->
  forall gs g,
    Forall (wellFilled maxLineLen) gs ->
    (g = [] \/ wellFilled maxLineLen g) -> Forall Word g ->
    exists gs' g',
      fold_left (wrapStep maxLineLen) parts
        (map (join " ") gs, join " " g)
      = (map (join " ") gs', join " " g')
      /\ (concat gs' ++ g' = (concat gs ++ g) ++ parts)%list
      /\ Forall (wellFilled maxLineLen) gs'
      /\ (g' = [] \/ wellFilled maxLineLen g') /\ Forall Word g'.
Proof.
  induction 1 as [|p parts Hp Hparts IH]; intros gs g Hgs Hg Hwords.
  - exists gs, g. cbn [fold_left]. rewrite app_nil_r. now repeat split.
  - cbn [fold_left]. unfold wrapStep at 2.
    destruct g as [|w g].
    + cbn [join String.concat truthy andb]. rewrite andb_false_r.
      destruct (IH gs [p]) as [gs' [g' [Hf [Hc H']]]]; auto.
      { right. split; [discriminate | now left]. }
      exists gs', g'. split; [exact Hf|]. split; [|exact H'].
      rewrite Hc, app_nil_r, <- app_assoc. reflexivity.
    + assert (Ht : truthy (join " " (w :: g)) = true).
      { apply join_truthy. inversion Hwords as [|? ? [Hw _] _]. exact Hw. }
      rewrite Ht, andb_true_r.
      rewrite <- (join_snoc " " p (w :: g)) by discriminate.
      destruct (maxLineLen <? String.length (join " " ((w :: g) ++ [p])))%nat
        eqn:E.
      * destruct (IH (gs ++ [w :: g]) [p]) as [gs' [g' [Hf [Hc H']]]].
        { apply Forall_app. split; [exact Hgs|].
          constructor; [|constructor].
          destruct Hg as [Hg | Hg]; [discriminate | exact Hg]. }
        { right. split; [discriminate | now left]. }
        { now constructor. }
        exists gs', g'. rewrite map_app in Hf. split; [exact Hf|].
        split; [|exact H'].
        rewrite Hc, concat_app. cbn [concat]. rewrite app_nil_r, <- !app_assoc.
        reflexivity.
      * apply Nat.ltb_ge in E.
        destruct (IH gs ((w :: g) ++ [p])) as [gs' [g' [Hf [Hc H']]]]; auto.
        { right. split; [discriminate | now right]. }
        { apply Forall_app. split; [exact Hwords | now constructor]. }
        exists gs', g'. split; [exact Hf|]. split; [|exact H'].
        rewrite Hc, <- !app_assoc. reflexivity.
Qed.

Lemma wrapLines_groups (maxLineLen : nat) (parts : list string) :
  Forall Word parts ->
  exists groups,
    wrapLines maxLineLen parts = map (join " ") groups
    /\ concat groups = parts
    /\ Forall (wellFilled maxLineLen) groups.
Proof.
  intros Hparts.
  destruct (wrap_loop maxLineLen parts Hparts [] [])
    as [gs [g [Hf [Hc [Hgs [Hg Hw]]]]]]; auto.
  unfold wrapLines. change ([], EmptyString) with (map (join " ") [], join " " []).
  rewrite Hf. cbn [app concat] in Hc. destruct g as [|w g].
  - exists gs. rewrite app_nil_r in Hc. now repeat split.
  - rewrite join_truthy by (inversion Hw as [|? ? [H _] _]; exact H).
    exists (gs ++ [w :: g]). rewrite map_app, concat_app. cbn [map concat].
    rewrite app_nil_r. repeat split; auto.
    apply Forall_app. split; [exact Hgs|]. constructor; [|constructor].
    destruct Hg as [Hg | Hg]; [discriminate | exact Hg].
Qed.

(** X16.  An axis label that is blank gives the empty text; one that,
    trimmed, fits in the line length is given back trimmed; a longer one
    is cut into its words, the words are laid out in order on lines of
    words joined by one space, a line taking a further word only while
    it fits, and the first three lines are kept, joined by newlines. *)
Theorem wrapAxisLabel_lines (label : string) (maxLineLen : nat) :
  (trim label = EmptyString -> wrapAxisLabel label maxLineLen = EmptyString)
  /\ (String.length (trim label) <= maxLineLen ->
      wrapAxisLabel label maxLineLen = trim label)
  /\ (maxLineLen < String.length (trim label) ->
      exists groups,
        wrapAxisLabel label maxLineLen
        = join (str LF) (firstn 3 (map (join " ") groups))
        /\ concat groups = filter truthy (splitWhiteSpace (trim label))
        /\ Forall (Forall Word) groups
        /\ Forall (wellFilled maxLineLen) groups).
Proof.
  unfold wrapAxisLabel. split; [intros ->; reflexivity|]. split.
  - intros H. destruct (trim label) eqn:E; [reflexivity|].
    cbn [truthy negb]. apply Nat.leb_le in H. now rewrite H.
  - intros H. destruct (trim label) as [|c t] eqn:E; [inversion H|].
    cbn [truthy negb]. apply Nat.leb_gt in H. rewrite H.
    destruct (wrapLines_groups maxLineLen
                (filter truthy (splitWhiteSpace (String c t)))
                (words_of_label _))
      as [groups [Hl [Hc Hg]]].
    exists groups. rewrite Hl. repeat split; try assumption.
    pose proof (words_of_label (String c t)) as Hw. rewrite <- Hc in Hw.
    clear - Hw. induction groups as [|g groups IH]; [constructor|].
    cbn [concat] in Hw. apply Forall_app in Hw as [Hg Hrest].
    constructor; [exact Hg | now apply IH].
Qed.

Lemma wrapAxisLabel_lines_witness :
  wrapAxisLabel "   " 12 = EmptyString
  /\ wrapAxisLabel " Level II " 12 = "Level II"
  /\ exists groups,
       wrapAxisLabel "Level III Re-accredited (AACCUP) until 2027" 12
       = join (str LF) (firstn 3 (map (join " ") groups))
       /\ Forall (wellFilled 12) groups.
Proof.
  split; [apply (proj1 (wrapAxisLabel_lines "   " 12)); reflexivity|].
  split.
  - apply (proj1 (proj2 (wrapAxisLabel_lines " Level II " 12))).
    vm_compute. lia.
  - destruct (proj2 (proj2 (wrapAxisLabel_lines
                 "Level III Re-accredited (AACCUP) until 2027" 12)))
      as [groups [H [_ [_ Hg]]]]; [vm_compute; lia|].
    now exists groups.
Defined.

End AxisLabels.

Section DistributionAndHeatmap.

Lemma derived_accreditation_Shown (raw : string) :
  Shown (normalizeAccreditation raw).
Proof.
  destruct (normalizeAccreditation_cases raw) as [H | [H | [H [Hne _]]]].
  - rewrite H. split; [reflexivity | discriminate].
  - simpl in H.
    repeat (destruct H as [H | H];
            [rewrite <- H; split; [reflexivity | discriminate]|]).
    contradiction.
  - rewrite H. split; [apply trim_idem | exact Hne].
Qed.

Lemma filteredRows_accreditation_Shown (rows : list ProgramRow)
  (f : FilterState) (r : DerivedRow) :
  In r (filteredRows (rowsWithDerived rows) f) ->
  Shown (AccreditationNormalized r).
Proof.
  intros H. apply filter_In in H as [H _].
  apply in_map_iff in H as [r0 [<- _]]. apply derived_accreditation_Shown.
Qed.

(** X17.  The accreditation distribution of the filtered records of any
    loaded rows has one count per category, every category has at least
    one record, and the counts add up to the number of filtered records:
    each record falls in exactly one bar. *)
Theorem accreditationDistOption_partitions
  (rows : list ProgramRow) (f : FilterState) :
  let shown := filteredRows (rowsWithDerived rows) f in
  let o := accreditationDistOption shown in
  length (DistOption.series_data o) = length (DistOption.xAxis_data o)
  /\ Forall (fun n => 1 <= n) (DistOption.series_data o)
  /\ list_sum (DistOption.series_data o) = length shown.
Proof.
  cbv zeta. unfold accreditationDistOption.
  cbn [DistOption.series_data DistOption.xAxis_data].
  set (shown := filteredRows (rowsWithDerived rows) f).
  split; [apply length_map|]. split.
  - apply Forall_forall. intros n Hn. apply in_map_iff in Hn as [a [<- Ha]].
    apply uniqSorted_In in Ha as [_ [v [Hv ->]]].
    apply in_map_iff in Hv as [r [<- Hr]].
    destruct (filteredRows_accreditation_Shown rows f r Hr) as [Ht _].
    rewrite Ht.
    assert (Hin : In r (filter (fun r0 : DerivedRow =>
                     (AccreditationNormalized r0 =? AccreditationNormalized r)%string)
                   shown)).
    { apply filter_In. split; [exact Hr | apply String.eqb_refl]. }
    destruct (filter _ shown); [contradiction | cbn; lia].
  - rewrite (tabulate_sum AccreditationNormalized) by apply uniqSorted_NoDup.
    rewrite filter_all; [reflexivity|].
    intros r Hr. apply shown_in_uniqSorted; [exact Hr|].
    exact (filteredRows_accreditation_Shown rows f r Hr).
Qed.






End DistributionAndHeatmap.

(* ================================================================== *)
(** ** What a filter lets through *)
(* ================================================================== *)

Section FilterMembership.

(** X20.  A record is in the filtered list exactly when it is in the list
    filtered, its value in each of the five dimensions is selected or the
    dimension has no selection, its Major is not blank if blank majors
    are hidden, and the search is blank or its trimmed lowercased text
    occurs in the record's searched text. *)
Theorem filteredRows_membership
  (rows : list DerivedRow) (f : FilterState) (r : DerivedRow) :
  In r (filteredRows rows f) <->
  In r rows
  /\ (forall d, selection d f = [] \/ In (dimValue d r) (selection d f))
  /\ (hideBlankMajor f = true -> trim (Major r) <> EmptyString)
  /\ (trim (search f) = EmptyString
      \/ Occurs (toLowerCase (trim (search f))) (haystackOf r)).
Proof.
  assert (Hm : forall s v, matchesMulti s v = true <-> s = [] \/ In v s).
  { intros s v. destruct s as [|x s].
    - split; [now left | reflexivity].
    - rewrite matchesMulti_cons_iff by discriminate.
      split; [now right | intros [H | H]; [discriminate | exact H]]. }
  assert (Hs : includesSearch r (search f) = true <->
               trim (search f) = EmptyString
               \/ Occurs (toLowerCase (trim (search f))) (haystackOf r)).
  { destruct (string_dec (trim (search f)) EmptyString) as [E | E].
    - split; [now left | intros _; now apply includesSearch_blank].
    - rewrite (includesSearch_occurs r _ E). split; [now right|].
      intros [H | H]; [contradiction | exact H]. }
  unfold filteredRows. rewrite filter_In, keepRow_true_iff, !Hm, Hs.
  rewrite truthy_true_iff. split.
  - intros [Hr [Hc [Hl [Hst [Ha [Hd [Hh Hq]]]]]]].
    repeat split; try assumption. intros d. destruct d; assumption.
  - intros [Hr [Hsel [Hh Hq]]].
    split; [exact Hr|].
    pose proof (Hsel ByCollege). pose proof (Hsel ByLevel).
    pose proof (Hsel ByCopcStatus). pose proof (Hsel ByAccreditation).
    pose proof (Hsel ByDean). now repeat split.
Qed.

End FilterMembership.
